(** * schedule.py: the scheduled-query reconciler

    A shallow embedding of [get_bq_client] and
    [create_or_update_scheduled_query] (src/schedule.py), with the
    properties that the specification states about them.

    - Python exceptions are values of [exn]; a call that may raise returns
      [exn + A].
    - The retry loop of [get_bq_client] is run with fuel against the
      behaviour of the authentication libraries at each pass.
    - The calls that [create_or_update_scheduled_query] makes on the client,
      the file system and the clock are the nodes of a program tree, run
      against an arbitrary handler; an in-memory transfer service is one such
      handler. *)

From Stdlib Require Import String List Bool Arith Lia.
Import ListNotations.
Open Scope list_scope.
Open Scope string_scope.

(** ** Python values *)

(** A raised exception: whether [isinstance(e, Exception)] holds (it does
    not for [KeyboardInterrupt], [SystemExit] and other bare
    [BaseException]s), and [str(e)]. *)
Record exn : Type := mk_exn {
  isinstance_Exception : bool;
  str : string
}.

(** How a function call ends: it returns, an exception raised by a callee
    escapes it, or the interpreter raises [UnboundLocalError] on reading a
    local variable that was never assigned. *)
Inductive outcome (A : Type) : Type :=
| Returns (a : A)
| Propagates (e : exn)
| UnboundLocalError (var : string).
Arguments Returns {A} a.
Arguments Propagates {A} e.
Arguments UnboundLocalError {A} var.

(** [needle in hay] on [str]. *)
Fixpoint contains (needle hay : string) : bool :=
  prefix needle hay ||
  match hay with
  | EmptyString => false
  | String _ hay' => contains needle hay'
  end.

(** ** get_bq_client *)

Definition PROJECT_ID : string := "four-metrics".
Definition TOKEN_FILE : string :=
  "/users/gripp/repos/fourkeys/queries/token.json".
Definition SERVICE_ACCOUNT_NOT_FOUND : string :=
  "BigQuery Data Transfer service account is not found".

Definition Credentials : Type := string.

(** The object built by [DataTransferServiceClient(credentials=...)]. *)
Record Client : Type := mk_Client { client_credentials : Credentials }.

(** What the three library calls of the [try] block do at one pass of the
    loop: each returns a value or raises. *)
Record library : Type := mk_library {
  from_service_account_file : string -> exn + Credentials;
  DataTransferServiceClient : Credentials -> exn + Client;
  project_path : Client -> string -> exn + string
}.

(** The local variables of [get_bq_client]; [None] is "not bound yet". *)
Record locals : Type := mk_locals {
  retry : bool;
  credentials : option Credentials;
  client : option Client;
  parent : option string
}.

Definition initial_locals : locals :=
  {| retry := true; credentials := None; client := None; parent := None |}.

Definition set_retry (l : locals) (b : bool) : locals :=
  {| retry := b; credentials := credentials l;
     client := client l; parent := parent l |}.
Definition set_credentials (l : locals) (v : Credentials) : locals :=
  {| retry := retry l; credentials := Some v;
     client := client l; parent := parent l |}.
Definition set_client (l : locals) (v : Client) : locals :=
  {| retry := retry l; credentials := credentials l;
     client := Some v; parent := parent l |}.
Definition set_parent (l : locals) (v : string) : locals :=
  {| retry := retry l; credentials := credentials l;
     client := client l; parent := Some v |}.

(** Lines 42-53, the body of [try]: the locals when it ends, and the
    exception that ended it, if any. *)
Definition try_block (lib : library) (l : locals) : locals * option exn :=
  match from_service_account_file lib TOKEN_FILE with
  | inl e => (l, Some e)
  | inr v =>
      let l := set_credentials l v in
      match DataTransferServiceClient lib v with
      | inl e => (l, Some e)
      | inr c =>
          let l := set_client l c in
          match project_path lib c PROJECT_ID with
          | inl e => (l, Some e)
          | inr p => (set_retry (set_parent l p) false, None)
          end
      end
  end.

(** Lines 39-57, one pass of the loop body: [except Exception as e] catches
    instances of [Exception] only, and clears [retry] unless [str(e)]
    contains the service-account text. Anything else escapes. *)
Definition loop_body (lib : library) (l : locals) : locals + exn :=
  match try_block lib l with
  | (l', None) => inl l'
  | (l', Some e) =>
      if isinstance_Exception e then
        if negb (contains SERVICE_ACCOUNT_NOT_FOUND (str e))
        then inl (set_retry l' false)
        else inl l'
      else inr e
  end.

(** Lines 38-57, [while retry is True]: pass [k] of the loop meets the
    libraries as [libs k]. [None] when [fuel] passes were not enough. *)
Fixpoint while_retry (fuel : nat) (libs : nat -> library) (k : nat)
    (l : locals) : option (locals + exn) :=
  if retry l then
    match fuel with
    | O => None
    | S fuel' =>
        match loop_body (libs k) l with
        | inl l' => while_retry fuel' libs (S k) l'
        | inr e => Some (inr e)
        end
    end
  else Some (inl l).

(** Line 59, [return client, parent]: [client] is read first. *)
Definition return_client_parent (l : locals) : outcome (Client * string) :=
  match client l with
  | None => UnboundLocalError "client"
  | Some c =>
      match parent l with
      | None => UnboundLocalError "parent"
      | Some p => Returns (c, p)
      end
  end.

Definition get_bq_client (fuel : nat) (libs : nat -> library)
    : option (outcome (Client * string)) :=
  match while_retry fuel libs 0 initial_locals with
  | None => None
  | Some (inr e) => Some (Propagates e)
  | Some (inl l) => Some (return_client_parent l)
  end.

(** The exception that ends the [try] block against [lib], if any. *)
Definition raised (lib : library) : option exn :=
  snd (try_block lib initial_locals).

(** A pass fails with the transient provisioning error: an [Exception]
    whose text contains the service-account message. *)
Definition transient (lib : library) : bool :=
  match raised lib with
  | Some e =>
      isinstance_Exception e && contains SERVICE_ACCOUNT_NOT_FOUND (str e)
  | None => false
  end.

(** ** Transfer configurations and the calls made on the outside world *)

(** The [params] struct of a transfer configuration. *)
Record Params : Type := mk_Params {
  query : string;
  destination_table_name_template : string;
  write_disposition : string
}.

(** The fields of [bigquery_datatransfer_v1.types.TransferConfig] that the
    script sets or reads; an unset string field of the message is [""]. *)
Record TransferConfig : Type := mk_TransferConfig {
  name : string;
  destination_dataset_id : string;
  display_name : string;
  data_source_id : string;
  params : Params;
  schedule : string
}.

Definition set_name (c : TransferConfig) (v : string) : TransferConfig :=
  {| name := v; destination_dataset_id := destination_dataset_id c;
     display_name := display_name c; data_source_id := data_source_id c;
     params := params c; schedule := schedule c |}.

(** Seconds since the epoch. *)
Definition Timestamp : Type := nat.

(** The command-line flags. *)
Record flags : Type := mk_flags {
  table : string;
  query_file : string;
  access_token : string
}.

(** The calls of lines 71-108 that leave the function: reading the query
    file, the four client methods and the clock. *)
Inductive call : Type :=
| open_read (path : string)
| list_transfer_configs (parent_path : string)
| update_transfer_config (transfer_config : TransferConfig)
    (update_mask : list string)
| GetCurrentTime
| start_manual_transfer_runs (config_name : string)
    (requested_run_time : Timestamp)
| create_transfer_config (parent_path : string)
    (transfer_config : TransferConfig).

(** What each call returns when it does not raise. *)
Definition answer (c : call) : Type :=
  match c with
  | open_read _ => string
  | list_transfer_configs _ => list TransferConfig
  | update_transfer_config _ _ => TransferConfig
  | GetCurrentTime => Timestamp
  | start_manual_transfer_runs _ _ => unit
  | create_transfer_config _ _ => TransferConfig
  end.

(** A straight-line program over these calls. *)
Inductive prog (R : Type) : Type :=
| Ret (r : R)
| Call (c : call) (k : answer c -> prog R).
Arguments Ret {R} r.
Arguments Call {R} c k.

Notation "x <- c ;; k" := (Call c (fun x => k))
  (at level 61, c at next level, right associativity).

(** The outside world: how each call is answered in a state of type [S]. *)
Definition handler (S : Type) : Type :=
  forall c : call, S -> (exn + answer c) * S.

(** Runs a program: an exception raised by a call escapes at once (the
    function has no [try] around these calls). The calls made are logged in
    order. *)
Fixpoint run {S R : Type} (h : handler S) (p : prog R) (s : S)
    : outcome R * S * list call :=
  match p with
  | Ret r => (Returns r, s, [])
  | Call c k =>
      match h c s with
      | (inl e, s') => (Propagates e, s', [c])
      | (inr a, s') =>
          let '(o, s'', log) := run h (k a) s' in (o, s'', c :: log)
      end
  end.

(** ** create_or_update_scheduled_query *)

(** Lines 74-87, the message parsed from the dictionary. *)
Definition build_transfer_config (table_name query_text : string)
    : TransferConfig :=
  {| name := "";
     destination_dataset_id := "four_keys";
     display_name := table_name;
     data_source_id := "scheduled_query";
     params := {| query := query_text;
                  destination_table_name_template := table_name;
                  write_disposition := "WRITE_TRUNCATE" |};
     schedule := "every 24 hours" |}.

(** Lines 93-105, the body of the [if]: the resource name of the listed
    entry is copied onto the message, the update is sent with the mask, and
    a manual run is requested for the current time. *)
Definition update_and_run (transfer_config scheduled_query : TransferConfig)
    : prog string :=
  let transfer_config := set_name transfer_config (name scheduled_query) in
  let update_mask := ["params"] in
  response <- update_transfer_config transfer_config update_mask ;;
  run_time <- GetCurrentTime ;;
  _ <- start_manual_transfer_runs (name transfer_config) run_time ;;
  Ret ("Updated scheduled query '" ++ name response ++ "'").

(** Lines 90-109: the [for] loop over the listed configurations, which
    returns from the first entry with the display name; [otherwise] is the
    code after the loop. *)
Fixpoint for_scheduled_query (table_name : string)
    (transfer_config : TransferConfig) (configs : list TransferConfig)
    (otherwise : prog string) : prog string :=
  match configs with
  | [] => otherwise
  | scheduled_query :: rest =>
      if (display_name scheduled_query =? table_name)%string
      then update_and_run transfer_config scheduled_query
      else for_scheduled_query table_name transfer_config rest otherwise
  end.

(** Lines 66-109, the function after the client has been obtained. *)
Definition reconcile (parent_path : string) (FLAGS : flags) : prog string :=
  let table_name := table FLAGS in
  query_text <- open_read (query_file FLAGS) ;;
  let transfer_config := build_transfer_config table_name query_text in
  configs <- list_transfer_configs parent_path ;;
  for_scheduled_query table_name transfer_config configs
    (response <- create_transfer_config parent_path transfer_config ;;
     Ret ("Created scheduled query '" ++ name response ++ "'")).

(** The whole function: [None] while [get_bq_client] is still retrying
    after [fuel] passes. *)
Definition create_or_update_scheduled_query {S : Type} (h : handler S)
    (fuel : nat) (libs : nat -> library) (FLAGS : flags) (s : S)
    : option (outcome string * S * list call) :=
  match get_bq_client fuel libs with
  | None => None
  | Some (Returns (_, parent_path)) => Some (run h (reconcile parent_path FLAGS) s)
  | Some (Propagates e) => Some (Propagates e, s, [])
  | Some (UnboundLocalError v) => Some (UnboundLocalError v, s, [])
  end.

(** ** Reading the log *)

Definition is_create (c : call) : bool :=
  match c with create_transfer_config _ _ => true | _ => false end.
Definition is_update (c : call) : bool :=
  match c with update_transfer_config _ _ => true | _ => false end.
Definition is_manual_run (c : call) : bool :=
  match c with start_manual_transfer_runs _ _ => true | _ => false end.

(** The listed entry is the one the script looks for. *)
Definition named (table_name : string) (c : TransferConfig) : bool :=
  (display_name c =? table_name)%string.

(** ** The transfer service *)

Definition set_params (c : TransferConfig) (v : Params) : TransferConfig :=
  {| name := name c; destination_dataset_id := destination_dataset_id c;
     display_name := display_name c; data_source_id := data_source_id c;
     params := v; schedule := schedule c |}.
Definition set_display_name (c : TransferConfig) (v : string)
    : TransferConfig :=
  {| name := name c; destination_dataset_id := destination_dataset_id c;
     display_name := v; data_source_id := data_source_id c;
     params := params c; schedule := schedule c |}.
Definition set_schedule (c : TransferConfig) (v : string) : TransferConfig :=
  {| name := name c; destination_dataset_id := destination_dataset_id c;
     display_name := display_name c; data_source_id := data_source_id c;
     params := params c; schedule := v |}.
Definition set_data_source_id (c : TransferConfig) (v : string)
    : TransferConfig :=
  {| name := name c; destination_dataset_id := destination_dataset_id c;
     display_name := display_name c; data_source_id := v;
     params := params c; schedule := schedule c |}.
Definition set_destination_dataset_id (c : TransferConfig) (v : string)
    : TransferConfig :=
  {| name := name c; destination_dataset_id := v;
     display_name := display_name c; data_source_id := data_source_id c;
     params := params c; schedule := schedule c |}.

(** One path of a field mask: the named field of [dst] is overwritten with
    that of [src]; an unknown path writes nothing. *)
Definition write_path (src dst : TransferConfig) (path : string)
    : TransferConfig :=
  if (path =? "params")%string then set_params dst (params src)
  else if (path =? "display_name")%string
       then set_display_name dst (display_name src)
  else if (path =? "schedule")%string then set_schedule dst (schedule src)
  else if (path =? "data_source_id")%string
       then set_data_source_id dst (data_source_id src)
  else if (path =? "destination_dataset_id")%string
       then set_destination_dataset_id dst (destination_dataset_id src)
  else dst.

(** A field mask restricts an update to the fields it names and leaves all
    others of the stored object untouched. *)
Definition apply_mask (mask : list string) (src dst : TransferConfig)
    : TransferConfig :=
  fold_left (write_path src) mask dst.

(** The stored configurations after an update of the resource [name src]. *)
Definition update_stored (src : TransferConfig) (mask : list string)
    (stored : list TransferConfig) : list TransferConfig :=
  map (fun c => if (name c =? name src)%string
                then apply_mask mask src c else c) stored.

(** The world outside the script: the files it can read, the clock, and the
    state of the remote service. *)
Record world : Type := mk_world {
  files : list (string * string);
  clock : Timestamp;
  transfer_configs : list TransferConfig;
  manual_runs : list (string * Timestamp)
}.

Definition set_transfer_configs (w : world) (v : list TransferConfig)
    : world :=
  {| files := files w; clock := clock w;
     transfer_configs := v; manual_runs := manual_runs w |}.
Definition tick (w : world) : world :=
  {| files := files w; clock := S (clock w);
     transfer_configs := transfer_configs w;
     manual_runs := manual_runs w |}.
Definition add_manual_run (w : world) (n : string) (t : Timestamp) : world :=
  {| files := files w; clock := clock w;
     transfer_configs := transfer_configs w;
     manual_runs := (manual_runs w ++ [(n, t)])%list |}.

Fixpoint read_file (path : string) (fs : list (string * string))
    : option string :=
  match fs with
  | [] => None
  | (p, text) :: fs' =>
      if (p =? path)%string then Some text else read_file path fs'
  end.

Definition FileNotFoundError : exn :=
  mk_exn true "[Errno 2] No such file or directory".
Definition NotFound : exn :=
  mk_exn true "404 Requested entity was not found".

(** Modelled from the spec: the remote transfer service and the other
    collaborators of the script (file system, clock), which are not code of
    this repository. The service follows the contract of the
    specification: [list_transfer_configs] returns the stored
    configurations in order; [create_transfer_config] stores the given
    configuration under a resource name that the service assigns
    ([assign_name]) and returns it; [update_transfer_config] overwrites the
    fields named by the mask in the stored configuration of that resource
    name and returns it; [start_manual_transfer_runs] records a run. *)
Definition service (assign_name : string -> list TransferConfig -> string)
    : handler world :=
  fun c =>
    match c as c0 return world -> (exn + answer c0) * world with
    | open_read path => fun w =>
        match read_file path (files w) with
        | Some text => (inr text, w)
        | None => (inl FileNotFoundError, w)
        end
    | list_transfer_configs _ => fun w => (inr (transfer_configs w), w)
    | update_transfer_config src mask => fun w =>
        let stored := update_stored src mask (transfer_configs w) in
        match find (fun c => (name c =? name src)%string) stored with
        | Some c => (inr c, set_transfer_configs w stored)
        | None => (inl NotFound, w)
        end
    | GetCurrentTime => fun w => (inr (clock w), tick w)
    | start_manual_transfer_runs n t => fun w =>
        if existsb (fun c => (name c =? n)%string) (transfer_configs w)
        then (inr tt, add_manual_run w n t)
        else (inl NotFound, w)
    | create_transfer_config p cfg => fun w =>
        let c := set_name cfg (assign_name p (transfer_configs w)) in
        (inr c, set_transfer_configs w (transfer_configs w ++ [c])%list)
    end.

(** Resource names identify the stored configurations. *)
Definition well_formed (w : world) : Prop :=
  NoDup (map name (transfer_configs w)).

(** The service never assigns a resource name that is in use. *)
Definition fresh_names (assign_name : string -> list TransferConfig -> string)
    : Prop :=
  forall p stored, ~ In (assign_name p stored) (map name stored).

(** How many stored configurations carry a display name. *)
Definition count_named (table_name : string) (l : list TransferConfig) : nat :=
  List.length (filter (named table_name) l).

(** A naming policy that is fresh by construction: the identifier is longer
    than every resource name in use. *)
Fixpoint zeros (n : nat) : string :=
  match n with
  | O => ""
  | S n' => "0" ++ zeros n'
  end.

Definition total_length (stored : list TransferConfig) : nat :=
  fold_right (fun c acc => String.length (name c) + acc) 0 stored.

Definition longer_name (p : string) (stored : list TransferConfig) : string :=
  p ++ "/transferConfigs/" ++ zeros (S (total_length stored)).

(** What a pass of the [try] block builds when nothing is raised. *)
Definition built (lib : library) : option (Client * string) :=
  match try_block lib initial_locals with
  | (l, None) =>
      match client l, parent l with
      | Some c, Some p => Some (c, p)
      | _, _ => None
      end
  | (_, Some _) => None
  end.

(** The client object, once lines 42 and 51 have both returned. *)
Definition constructed_client (lib : library) : option Client :=
  match from_service_account_file lib TOKEN_FILE with
  | inl _ => None
  | inr v =>
      match DataTransferServiceClient lib v with
      | inl _ => None
      | inr c => Some c
      end
  end.

(** ** Sample behaviours of the authentication libraries *)

(** Everything works. *)
Definition working_library : library :=
  {| from_service_account_file := fun _ => inr "token";
     DataTransferServiceClient := fun v => inr (mk_Client v);
     project_path := fun _ project => inr ("projects/" ++ project) |}.

(** The service account has not propagated yet. *)
Definition provisioning_library : library :=
  {| from_service_account_file := fun _ => inr "token";
     DataTransferServiceClient := fun _ =>
       inl (mk_exn true
         "400 BigQuery Data Transfer service account is not found");
     project_path := fun _ project => inr ("projects/" ++ project) |}.

(** The key file is missing. *)
Definition missing_token_library : library :=
  {| from_service_account_file := fun _ => inl FileNotFoundError;
     DataTransferServiceClient := fun v => inr (mk_Client v);
     project_path := fun _ project => inr ("projects/" ++ project) |}.

Definition AttributeError : exn :=
  mk_exn true
    "'DataTransferServiceClient' object has no attribute 'project_path'".

(** A client library without [project_path]: the client is built, then
    line 52 raises. *)
Definition stale_library : library :=
  {| from_service_account_file := fun _ => inr "token";
     DataTransferServiceClient := fun v => inr (mk_Client v);
     project_path := fun _ _ => inl AttributeError |}.

(** Two transient failures, then whatever [lib] does. *)
Definition after_two_failures (lib : library) (k : nat) : library :=
  if (k <? 2)%nat then provisioning_library else lib.

(** ** Sample worlds *)

Definition deployments_flags : flags :=
  {| table := "deployments"; query_file := "queries/deployments.sql";
     access_token := "" |}.

Definition changes_flags : flags :=
  {| table := "changes"; query_file := "queries/changes.sql";
     access_token := "" |}.

Definition sample_files : list (string * string) :=
  [("queries/deployments.sql", "SELECT 1");
   ("queries/changes.sql", "SELECT 2")].

(** A stored configuration whose schedule, data source and dataset differ
    from what the script would write. *)
Definition stored_deployments : TransferConfig :=
  {| name := "projects/four-metrics/transferConfigs/1";
     destination_dataset_id := "legacy_keys";
     display_name := "deployments";
     data_source_id := "legacy_query";
     params := {| query := "SELECT 0";
                  destination_table_name_template := "deployments_old";
                  write_disposition := "WRITE_APPEND" |};
     schedule := "every 12 hours" |}.

Definition stored_changes : TransferConfig :=
  {| name := "projects/four-metrics/transferConfigs/2";
     destination_dataset_id := "four_keys";
     display_name := "changes";
     data_source_id := "scheduled_query";
     params := {| query := "SELECT 0";
                  destination_table_name_template := "changes";
                  write_disposition := "WRITE_TRUNCATE" |};
     schedule := "every 24 hours" |}.

(** A second configuration with the display name of the first. *)
Definition stored_duplicate : TransferConfig :=
  {| name := "projects/four-metrics/transferConfigs/3";
     destination_dataset_id := "four_keys";
     display_name := "deployments";
     data_source_id := "scheduled_query";
     params := {| query := "SELECT 3";
                  destination_table_name_template := "deployments";
                  write_disposition := "WRITE_TRUNCATE" |};
     schedule := "every 24 hours" |}.

Definition empty_world : world :=
  {| files := sample_files; clock := 1000;
     transfer_configs := []; manual_runs := [] |}.

Definition sample_world : world :=
  {| files := sample_files; clock := 1000;
     transfer_configs :=
       [stored_changes; stored_deployments; stored_duplicate];
     manual_runs := [] |}.

(** Two more behaviours of the authentication libraries: the client is
    built, then [project_path] fails with the transient error; and that
    once, followed by a missing key file. *)
Definition half_provisioned_library : library :=
  {| from_service_account_file := fun _ => inr "token";
     DataTransferServiceClient := fun v => inr (mk_Client v);
     project_path := fun _ _ =>
       inl (mk_exn true
         "400 BigQuery Data Transfer service account is not found") |}.

Definition half_provisioned_then_missing (k : nat) : library :=
  if (k <? 1)%nat then half_provisioned_library else missing_token_library.

(** ** noxfile.py: collecting the test folders *)

(** A directory as [os.walk] reports it: the names of its files and its
    subdirectories, in listing order. A subdirectory that [os.walk] lists
    but does not enter (a symbolic link, an unreadable directory) yields
    nothing, as an empty directory does. *)
Inductive tree : Type :=
| Node (file_names : list string) (subdirs : forest)
with forest : Type :=
| no_dirs
| dir (dir_name : string) (t : tree) (rest : forest).

Scheme tree_forest_ind := Induction for tree Sort Prop
  with forest_tree_ind := Induction for forest Sort Prop.
Combined Scheme tree_forest_mutind from tree_forest_ind, forest_tree_ind.

(** [s.endswith(suffix)]. *)
Fixpoint endswith (s suffix : string) : bool :=
  (s =? suffix)%string ||
  match s with
  | EmptyString => false
  | String _ s' => endswith s' suffix
  end.

(** Line 36, [any(f for f in files if f.endswith(suffix))]: the generator
    yields the names themselves, so a name counts when it ends with the
    suffix and is a true value, that is, not empty. *)
Definition any_with_suffix (suffix : string) (files : list string) : bool :=
  existsb (fun f => endswith f suffix && negb (f =? "")%string) files.

(** [s[0]] raises on an empty name. *)
Definition IndexError : exn := mk_exn true "string index out of range".

Fixpoint has_empty_name (f : forest) : bool :=
  match f with
  | no_dirs => false
  | dir s _ rest => (s =? "")%string || has_empty_name rest
  end.

Section Walk.

(** [os.path.join] and [str.isalpha] on one character. *)
Variable join : string -> string -> string.
Variable isalpha : Ascii.ascii -> bool.

(** Line 45, [s[0].isalpha()] on a name that is not empty. *)
Definition starts_alpha (s : string) : bool :=
  match s with
  | EmptyString => false
  | String a _ => isalpha a
  end.

(** The top-down walk without any pruning: every directory with its
    path and its files. *)
Fixpoint os_walk (top : string) (t : tree) : list (string * list string) :=
  match t with
  | Node files subdirs => (top, files) :: os_walk_subdirs top subdirs
  end
with os_walk_subdirs (top : string) (f : forest)
    : list (string * list string) :=
  match f with
  | no_dirs => []
  | dir s t rest => (os_walk (join top s) t ++ os_walk_subdirs top rest)%list
  end.

(** Lines 33-46, [_collect_dirs] run to its end: the paths it yields, in
    order, and the exception that ended it, if any. [os.walk] enters the
    subdirectories that are left in [subdirs] when the loop body has run:
    all of them after [continue], none after [del subdirs[:]], and those
    whose name starts with a letter after the filter of line 44, which
    raises before any of them is entered if a name is empty. *)
Fixpoint _collect_dirs (suffix : string) (recurse_further : bool)
    (parent_path : string) (t : tree) : list string * option exn :=
  match t with
  | Node files subdirs =>
      if contains "./." parent_path then
        walk_subdirs suffix recurse_further parent_path (fun _ => true)
          subdirs
      else if any_with_suffix suffix files then
        if recurse_further then
          let (yielded, e) :=
            walk_subdirs suffix recurse_further parent_path (fun _ => true)
              subdirs in
          (parent_path :: yielded, e)
        else ([parent_path], None)
      else if has_empty_name subdirs then ([], Some IndexError)
      else walk_subdirs suffix recurse_further parent_path starts_alpha
             subdirs
  end
with walk_subdirs (suffix : string) (recurse_further : bool)
    (parent_path : string) (keep : string -> bool) (f : forest)
    : list string * option exn :=
  match f with
  | no_dirs => ([], None)
  | dir s t rest =>
      if keep s then
        match _collect_dirs suffix recurse_further (join parent_path s) t with
        | (yielded, Some e) => (yielded, Some e)
        | (yielded, None) =>
            let (yielded', e') :=
              walk_subdirs suffix recurse_further parent_path keep rest in
            ((yielded ++ yielded')%list, e')
        end
      else walk_subdirs suffix recurse_further parent_path keep rest
  end.

End Walk.

(** No directory below the root has an empty name. *)
Fixpoint all_named (t : tree) : bool :=
  match t with
  | Node _ subdirs => all_named_subdirs subdirs
  end
with all_named_subdirs (f : forest) : bool :=
  match f with
  | no_dirs => true
  | dir s t rest =>
      negb (s =? "")%string && all_named t && all_named_subdirs rest
  end.

(** ** noxfile.py: the local import names *)

(** Lines 96-103, [_determine_local_import_names], on the listing that
    [os.listdir(start_dir)] returns. [("__pycache__")] is a string, not a
    tuple, so [not in] is a substring test. *)
Definition _determine_local_import_names
    (splitext : string -> string * string) (isdir : string -> bool)
    (join : string -> string -> string) (listdir : list string)
    (start_dir : string) : list string :=
  let file_ext_pairs := map splitext listdir in
  map fst
    (filter
       (fun pair =>
          let '(basename, extension) := pair in
          (extension =? ".py")%string ||
          (isdir (join start_dir basename) &&
           negb (contains basename "__pycache__")))
       file_ext_pairs).

(** Sample parts for the above: ASCII letters, a join for plain names,
    and a small source tree. *)
Definition ascii_isalpha (a : Ascii.ascii) : bool :=
  let n := Ascii.nat_of_ascii a in
  ((65 <=? n)%nat && (n <=? 90)%nat) || ((97 <=? n)%nat && (n <=? 122)%nat).

Definition plain_join (a b : string) : string := a ++ "/" ++ b.

Definition sample_tree : tree :=
  Node ["noxfile.py"; "README.md"]
    (dir ".git" (Node ["hooks_test.py"] no_dirs)
    (dir "queries" (Node ["schedule.py"; "schedule_test.py"]
                      (dir "helpers" (Node ["util_test.py"] no_dirs)
                       no_dirs))
    (dir "_build" (Node ["gen_test.py"] no_dirs)
    (dir "docs" (Node ["index.md"] no_dirs)
     no_dirs)))).

(** The character [.]. *)
Definition dot : Ascii.ascii := Ascii.ascii_of_nat 46.

(** A sample [os.path.splitext] for names without a separator: the
    extension starts at the last dot, unless only dots come before it. *)
Fixpoint split_last_dot (s : string) : option (string * string) :=
  match s with
  | EmptyString => None
  | String a s' =>
      match split_last_dot s' with
      | Some (root, ext) => Some (String a root, ext)
      | None => if Ascii.eqb a dot then Some ("", s) else None
      end
  end.

Fixpoint all_dots (s : string) : bool :=
  match s with
  | EmptyString => true
  | String a s' => Ascii.eqb a dot && all_dots s'
  end.

Definition plain_splitext (p : string) : string * string :=
  match split_last_dot p with
  | Some (root, ext) => if all_dots root then (p, "") else (root, ext)
  | None => (p, "")
  end.

(** A sample listing of the repository root and its directories. *)
Definition sample_listing : list string :=
  ["schedule.py"; "cache"; "queries"; "__pycache__"; "README.md"; ".git"].

Definition sample_isdir (path : string) : bool :=
  (path =? "./cache")%string || (path =? "./queries")%string ||
  (path =? "./__pycache__")%string || (path =? "./.git")%string.

(** * Properties *)

(** ** Substring test *)

Lemma prefix_append (needle : string) :
  forall hay,
    prefix needle hay = true <-> exists post, hay = needle ++ post.
Proof.
  induction needle as [| a needle IH]; intros hay.
  - split; [| destruct hay; reflexivity].
    intros _. exists hay. reflexivity.
  - destruct hay as [| b hay]; simpl.
    + split; [discriminate |]. intros [post H]. discriminate.
    + destruct (Ascii.ascii_dec a b) as [-> | N].
      * rewrite IH. split; intros [post H]; exists post.
        -- rewrite H. reflexivity.
        -- injection H as H. exact H.
      * split; [discriminate |]. intros [post H].
        injection H as E _. symmetry in E. contradiction.
Qed.

(** [contains] is Python's [in] on strings: the needle occurs somewhere
    in the text. *)
Lemma contains_spec (needle : string) :
  forall hay,
    contains needle hay = true <->
    exists pre post, hay = pre ++ needle ++ post.
Proof.
  induction hay as [| a hay IH]; cbn [contains].
  - rewrite orb_false_r, prefix_append. split.
    + intros [post H]. exists "", post. exact H.
    + intros (pre & post & H). exists post.
      destruct pre; [exact H | discriminate].
  - rewrite orb_true_iff, IH, prefix_append. split.
    + intros [[post H] | (pre & post & H)].
      * exists "", post. exact H.
      * exists (String a pre), post. rewrite H. reflexivity.
    + intros (pre & post & H). destruct pre as [| b pre].
      * left. exists post. exact H.
      * right. exists pre, post. injection H as _ H. exact H.
Qed.

(** ** The retry loop *)

(** The loop waits for the service account and returns the client of the
    first pass that succeeds. *)
Example get_bq_client_after_two_failures :
  get_bq_client 2 (after_two_failures working_library) = None /\
  get_bq_client 3 (after_two_failures working_library) =
    Some (Returns (mk_Client "token", "projects/four-metrics")).
Proof. split; reflexivity. Qed.

(** A missing key file ends the loop at once, and the [return] fails. *)
Example get_bq_client_missing_token :
  get_bq_client 1 (fun _ => missing_token_library) =
    Some (UnboundLocalError "client").
Proof. reflexivity. Qed.

Lemma try_block_cases (lib : library) (l : locals) :
  (exists e l', try_block lib l = (l', Some e) /\ raised lib = Some e /\
     built lib = None /\ retry l' = retry l /\ parent l' = parent l) \/
  (exists c p l', try_block lib l = (l', None) /\ raised lib = None /\
     built lib = Some (c, p) /\ retry l' = false /\
     client l' = Some c /\ parent l' = Some p).
Proof.
  unfold raised, built, try_block.
  destruct (from_service_account_file lib TOKEN_FILE) as [e | v].
  - left. exists e, l. simpl. auto.
  - destruct (DataTransferServiceClient lib v) as [e | c].
    + left. exists e, (set_credentials l v). simpl. auto.
    + destruct (project_path lib c PROJECT_ID) as [e | p].
      * left. exists e, (set_client (set_credentials l v) c). simpl. auto.
      * right. exists c, p. eexists. simpl. repeat split; reflexivity.
Qed.

(** A pass that fails with the transient error leaves the loop running. *)
Lemma loop_body_transient (lib : library) (l : locals) :
  transient lib = true ->
  exists l', loop_body lib l = inl l' /\ retry l' = retry l /\
             parent l' = parent l.
Proof.
  intros Ht. unfold transient in Ht. unfold loop_body.
  destruct (try_block_cases lib l)
    as [(e & l' & Hb & Hr & _ & Hretry & Hparent)
       | (c & p & l' & Hb & Hr & _)];
    rewrite Hr in Ht; [| discriminate].
  apply andb_true_iff in Ht. destruct Ht as [He Hc].
  rewrite Hb, He, Hc. simpl. exists l'. auto.
Qed.

(** A pass that does not fail with the transient error ends the loop. *)
Lemma loop_body_stops (lib : library) (l : locals) :
  transient lib = false ->
  (exists e, loop_body lib l = inr e /\ raised lib = Some e /\
             isinstance_Exception e = false) \/
  (exists l', loop_body lib l = inl l' /\ retry l' = false /\
     ((exists e, raised lib = Some e /\ isinstance_Exception e = true /\
                 contains SERVICE_ACCOUNT_NOT_FOUND (str e) = false /\
                 parent l' = parent l) \/
      (exists c p, built lib = Some (c, p) /\ client l' = Some c /\
                   parent l' = Some p))).
Proof.
  intros Ht. unfold transient in Ht. unfold loop_body.
  destruct (try_block_cases lib l)
    as [(e & l' & Hb & Hr & _ & Hretry & Hparent)
       | (c & p & l' & Hb & Hr & Hbuilt & Hretry & Hc & Hp)];
    rewrite Hr in Ht; rewrite Hb.
  - destruct (isinstance_Exception e) eqn:He.
    + simpl in Ht. rewrite Ht. simpl. right.
      exists (set_retry l' false). repeat split. left. exists e. auto.
    + left. exists e. auto.
  - right. exists l'. repeat split; trivial. right. exists c, p. auto.
Qed.

Lemma while_retry_stopped (fuel : nat) (libs : nat -> library) (k : nat)
    (l : locals) :
  retry l = false -> while_retry fuel libs k l = Some (inl l).
Proof. intros H. destruct fuel; simpl; rewrite H; reflexivity. Qed.

(** More fuel does not change a result. *)
Lemma while_retry_more_fuel (libs : nat -> library) :
  forall fuel fuel' k l r,
    while_retry fuel libs k l = Some r -> fuel <= fuel' ->
    while_retry fuel' libs k l = Some r.
Proof.
  induction fuel as [| fuel IH]; intros fuel' k l r H Hle.
  - simpl in H. destruct (retry l) eqn:Hr; [discriminate |].
    rewrite while_retry_stopped; assumption.
  - destruct fuel' as [| fuel']; [lia |].
    simpl in *. destruct (retry l); [| assumption].
    destruct (loop_body (libs k) l); [| assumption].
    apply IH; [assumption | lia].
Qed.

(** [n] transient failures in a row cost [n] passes and leave the loop
    running, with [parent] as it was. *)
Lemma while_retry_skip (libs : nat -> library) :
  forall n k l,
    retry l = true ->
    (forall i, i < n -> transient (libs (k + i)) = true) ->
    exists l', retry l' = true /\ parent l' = parent l /\
      forall fuel,
        while_retry (n + fuel) libs k l = while_retry fuel libs (k + n) l'.
Proof.
  induction n as [| n IH]; intros k l Hr Ht.
  - exists l. repeat split; trivial. intros fuel.
    rewrite Nat.add_0_r. reflexivity.
  - destruct (loop_body_transient (libs k) l) as (l1 & Hb & Hr1 & Hp1).
    { specialize (Ht 0). rewrite Nat.add_0_r in Ht. apply Ht. lia. }
    destruct (IH (S k) l1) as (l' & Hr' & Hp' & Hrun).
    { congruence. }
    { intros i Hi. specialize (Ht (S i)).
      rewrite Nat.add_succ_r in Ht. apply Ht. lia. }
    exists l'. split; [assumption |]. split; [congruence |].
    intros fuel. simpl. rewrite Hr, Hb, Hrun.
    rewrite Nat.add_succ_r. reflexivity.
Qed.

(** Against transient failures only, no amount of fuel ends the loop. *)
Lemma while_retry_forever (libs : nat -> library) :
  (forall n, transient (libs n) = true) ->
  forall fuel k l, retry l = true -> while_retry fuel libs k l = None.
Proof.
  intros Ht. induction fuel as [| fuel IH]; intros k l Hr; simpl; rewrite Hr.
  - reflexivity.
  - destruct (loop_body_transient (libs k) l (Ht k)) as (l' & Hb & Hr' & _).
    rewrite Hb. apply IH. congruence.
Qed.

(** A pass that is not a transient failure is reached and ends the loop. *)
Lemma while_retry_reaches (libs : nat -> library) :
  forall n k l,
    retry l = true -> transient (libs (k + n)) = false ->
    exists fuel r, while_retry fuel libs k l = Some r.
Proof.
  induction n as [| n IH]; intros k l Hr Hn.
  - rewrite Nat.add_0_r in Hn. exists 1. simpl. rewrite Hr.
    destruct (loop_body_stops (libs k) l Hn)
      as [(e & Hb & _) | (l' & Hb & Hr' & _)]; rewrite Hb.
    + eexists. reflexivity.
    + rewrite Hr'. eexists. reflexivity.
  - destruct (transient (libs k)) eqn:Hk.
    + destruct (loop_body_transient (libs k) l Hk) as (l' & Hb & Hr' & _).
      destruct (IH (S k) l') as (fuel & r & Hrun).
      { congruence. }
      { rewrite Nat.add_succ_r in Hn. exact Hn. }
      exists (S fuel), r. simpl. rewrite Hr, Hb. exact Hrun.
    + exists 1. simpl. rewrite Hr.
      destruct (loop_body_stops (libs k) l Hk)
        as [(e & Hb & _) | (l' & Hb & Hr' & _)]; rewrite Hb.
      * eexists. reflexivity.
      * rewrite Hr'. eexists. reflexivity.
Qed.

(** A loop that ended met a pass that was not a transient failure. *)
Lemma while_retry_ended (libs : nat -> library) :
  forall fuel k l r,
    retry l = true -> while_retry fuel libs k l = Some r ->
    exists n, transient (libs (k + n)) = false.
Proof.
  induction fuel as [| fuel IH]; intros k l r Hr H; simpl in H;
    rewrite Hr in H; [discriminate |].
  destruct (transient (libs k)) eqn:Hk.
  - destruct (loop_body_transient (libs k) l Hk) as (l' & Hb & Hr' & _).
    rewrite Hb in H. destruct (IH (S k) l' r) as (n & Hn);
      [congruence | assumption |].
    exists (S n). rewrite Nat.add_succ_r. exact Hn.
  - exists 0. rewrite Nat.add_0_r. exact Hk.
Qed.

Lemma built_not_raised (lib : library) (c : Client) (p : string) :
  built lib = Some (c, p) -> raised lib = None /\ transient lib = false.
Proof.
  intros Hb. unfold transient.
  destruct (try_block_cases lib initial_locals)
    as [(e & l' & _ & _ & Hn & _) | (c' & p' & l' & _ & Hr & _)].
  - congruence.
  - rewrite Hr. split; reflexivity.
Qed.

Lemma raised_transient (lib : library) (e : exn) :
  raised lib = Some e ->
  transient lib =
    isinstance_Exception e && contains SERVICE_ACCOUNT_NOT_FOUND (str e).
Proof. intros H. unfold transient. rewrite H. reflexivity. Qed.

(** The loop ends at a pass that raises an [Exception] without the text:
    [retry] is cleared, [parent] is still unbound, and [client] is bound
    only if the pass got as far as constructing it. *)
Lemma loop_body_swallows (lib : library) (l : locals) (e : exn) :
  raised lib = Some e -> isinstance_Exception e = true ->
  contains SERVICE_ACCOUNT_NOT_FOUND (str e) = false ->
  exists l', loop_body lib l = inl l' /\ retry l' = false /\
    parent l' = parent l /\
    client l' = match constructed_client lib with
                | Some c => Some c
                | None => client l
                end.
Proof.
  unfold raised, loop_body, constructed_client, try_block.
  destruct (from_service_account_file lib TOKEN_FILE) as [e1 | v]; simpl.
  - intros [= ->] He Hc. rewrite He, Hc. simpl. eexists. eauto.
  - destruct (DataTransferServiceClient lib v) as [e2 | c]; simpl.
    + intros [= ->] He Hc. rewrite He, Hc. simpl. eexists. eauto.
    + destruct (project_path lib c PROJECT_ID) as [e3 | p]; simpl.
      * intros [= ->] He Hc. rewrite He, Hc. simpl. eexists. eauto.
      * discriminate.
Qed.

(** C4. The retry loop of [get_bq_client] retries exactly when the text
    of the caught error (an instance of [Exception], which is what the
    [except] clause catches) contains the service-account message
    ["BigQuery Data Transfer service account is not found"], and does so
    without any limit on the number of attempts: after any number [n] of
    such failures the flag [retry] is what the text of the next error
    decides.
    If that error carries the text, the function is still looping after
    pass [n] and goes on to pass [n + 1], whose client it returns when the
    pass succeeds. If it does not, the loop stops and the error is
    swallowed: the function does not let it escape (what the caller sees is
    the [UnboundLocalError] of the [return] statement). *)
Theorem get_bq_client_retries_on_text_only :
  forall (libs : nat -> library) (n : nat) (e : exn),
    (forall k, k < n -> transient (libs k) = true) ->
    raised (libs n) = Some e ->
    isinstance_Exception e = true ->
    (forall l, retry l = true ->
       exists l', loop_body (libs n) l = inl l' /\
         retry l' = contains SERVICE_ACCOUNT_NOT_FOUND (str e)) /\
    (contains SERVICE_ACCOUNT_NOT_FOUND (str e) = true ->
       get_bq_client (S n) libs = None /\
       forall c p, built (libs (S n)) = Some (c, p) ->
         get_bq_client (S (S n)) libs = Some (Returns (c, p))) /\
    (contains SERVICE_ACCOUNT_NOT_FOUND (str e) = false ->
       exists v, forall fuel, n < fuel ->
         get_bq_client fuel libs = Some (UnboundLocalError v) /\
         get_bq_client fuel libs <> Some (Propagates e)).
Proof.
  intros libs n e Hpre Hraised He.
  pose proof (raised_transient _ _ Hraised) as Htr. rewrite He in Htr.
  simpl in Htr.
  destruct (while_retry_skip libs n 0 initial_locals eq_refl Hpre)
    as (l0 & Hr0 & Hp0 & Hskip).
  simpl in Hp0, Hskip.
  split; [| split].
  - intros l Hl.
    destruct (contains SERVICE_ACCOUNT_NOT_FOUND (str e)) eqn:Hc.
    + destruct (loop_body_transient (libs n) l Htr) as (l' & Hb & Hr' & _).
      exists l'. split; congruence.
    + destruct (loop_body_swallows (libs n) l e Hraised He Hc)
        as (l' & Hb & Hr' & _).
      exists l'. split; congruence.
  - intros Hc. rewrite Hc in Htr.
    destruct (loop_body_transient (libs n) l0 Htr) as (l1 & Hb1 & Hr1 & _).
    rewrite Hr0 in Hr1.
    split.
    + unfold get_bq_client. replace (S n) with (n + 1) by lia.
      rewrite Hskip. simpl. rewrite Hr0, Hb1, Hr1. reflexivity.
    + intros c p Hbuilt.
      destruct (built_not_raised _ _ _ Hbuilt) as [Hnone Hnt].
      unfold get_bq_client. replace (S (S n)) with (n + 2) by lia.
      rewrite Hskip. simpl. rewrite Hr0, Hb1, Hr1.
      destruct (loop_body_stops (libs (S n)) l1 Hnt)
        as [(e' & _ & He' & _)
           | (l2 & Hb2 & Hr2 & [(e' & He' & _) | (c' & p' & Hb' & Hc' & Hp')])];
        try congruence.
      rewrite Hb2, Hr2. unfold return_client_parent.
      rewrite Hc', Hp'. congruence.
  - intros Hc.
    destruct (loop_body_swallows (libs n) l0 e Hraised He Hc)
      as (l1 & Hb1 & Hr1 & Hp1 & _).
    exists (match client l1 with None => "client" | Some _ => "parent" end).
    intros fuel Hfuel.
    assert (Hrun : get_bq_client fuel libs =
      Some (UnboundLocalError
              (match client l1 with None => "client" | Some _ => "parent" end))).
    { unfold get_bq_client. replace fuel with (n + S (fuel - S n)) by lia.
      rewrite Hskip. simpl. rewrite Hr0, Hb1.
      rewrite while_retry_stopped by assumption.
      unfold return_client_parent. rewrite Hp1, Hp0.
      destruct (client l1); reflexivity. }
    split; [exact Hrun |]. rewrite Hrun. discriminate.
Qed.

Lemma after_two_failures_transient :
  forall k, k < 2 ->
    transient (after_two_failures missing_token_library k) = true.
Proof.
  intros k Hk. destruct k as [| [| k]]; [reflexivity | reflexivity | lia].
Qed.

Lemma get_bq_client_retries_on_text_only_witness :
  (forall l, retry l = true ->
     exists l',
       loop_body (after_two_failures missing_token_library 2) l = inl l' /\
       retry l' =
         contains SERVICE_ACCOUNT_NOT_FOUND (str FileNotFoundError)) /\
  (contains SERVICE_ACCOUNT_NOT_FOUND (str FileNotFoundError) = true ->
     get_bq_client 3 (after_two_failures missing_token_library) = None /\
     forall c p,
       built (after_two_failures missing_token_library 3) = Some (c, p) ->
       get_bq_client 4 (after_two_failures missing_token_library) =
         Some (Returns (c, p))) /\
  (contains SERVICE_ACCOUNT_NOT_FOUND (str FileNotFoundError) = false ->
     exists v, forall fuel, 2 < fuel ->
       get_bq_client fuel (after_two_failures missing_token_library) =
         Some (UnboundLocalError v) /\
       get_bq_client fuel (after_two_failures missing_token_library) <>
         Some (Propagates FileNotFoundError)).
Proof.
  apply (get_bq_client_retries_on_text_only
           (after_two_failures missing_token_library) 2 FileNotFoundError).
  - exact after_two_failures_transient.
  - reflexivity.
  - reflexivity.
Defined.

Lemma get_bq_client_some_iff (fuel : nat) (libs : nat -> library) :
  (exists r, get_bq_client fuel libs = Some r) <->
  (exists r, while_retry fuel libs 0 initial_locals = Some r).
Proof.
  unfold get_bq_client.
  destruct (while_retry fuel libs 0 initial_locals) as [[l | e] |].
  - split; intros _; eexists; reflexivity.
  - split; intros _; eexists; reflexivity.
  - split; intros [r H]; discriminate.
Qed.

Lemma get_bq_client_more_fuel (libs : nat -> library) :
  forall fuel fuel' r,
    get_bq_client fuel libs = Some r -> fuel <= fuel' ->
    get_bq_client fuel' libs = Some r.
Proof.
  intros fuel fuel' r H Hle. unfold get_bq_client in *.
  destruct (while_retry fuel libs 0 initial_locals) as [x |] eqn:Hx;
    [| discriminate].
  rewrite (while_retry_more_fuel libs fuel fuel' 0 initial_locals x Hx Hle).
  exact H.
Qed.

(** C9. [get_bq_client] terminates whenever some pass of the loop succeeds
    or raises an error whose text does not contain the service-account
    message ["BigQuery Data Transfer service account is not found"], and
    with enough fuel its result no longer changes. It ends
    exactly when some pass is not a transient failure, and runs forever
    exactly when every pass is one. *)
Theorem get_bq_client_terminates_unless_always_transient :
  forall libs : nat -> library,
    ((exists n, raised (libs n) = None \/
                exists e, raised (libs n) = Some e /\
                  contains SERVICE_ACCOUNT_NOT_FOUND (str e) = false) ->
     exists fuel r, forall fuel', fuel <= fuel' ->
       get_bq_client fuel' libs = Some r) /\
    ((exists fuel r, get_bq_client fuel libs = Some r) <->
     (exists n, transient (libs n) = false)) /\
    ((forall fuel, get_bq_client fuel libs = None) <->
     (forall n, transient (libs n) = true)).
Proof.
  intros libs.
  assert (Hends : (exists fuel r, get_bq_client fuel libs = Some r) <->
                  (exists n, transient (libs n) = false)).
  { split.
    - intros (fuel & r & H).
      destruct (proj1 (get_bq_client_some_iff fuel libs)) as [x Hx];
        [exists r; exact H |].
      exact (while_retry_ended libs fuel 0 initial_locals x eq_refl Hx).
    - intros (n & Hn).
      destruct (while_retry_reaches libs n 0 initial_locals eq_refl Hn)
        as (fuel & x & Hx).
      exists fuel. apply get_bq_client_some_iff. exists x. exact Hx. }
  split; [| split].
  - intros (n & Hn).
    assert (Hnt : transient (libs n) = false).
    { unfold transient. destruct Hn as [Hn | (e & Hn & Hc)]; rewrite Hn.
      - reflexivity.
      - rewrite Hc. apply andb_false_r. }
    destruct (proj2 Hends) as (fuel & r & H); [exists n; exact Hnt |].
    exists fuel, r. intros fuel' Hle.
    exact (get_bq_client_more_fuel libs fuel fuel' r H Hle).
  - exact Hends.
  - split.
    + intros Hnone n. destruct (transient (libs n)) eqn:Hn; [reflexivity |].
      destruct (proj2 Hends) as (fuel & r & H); [exists n; exact Hn |].
      rewrite Hnone in H. discriminate.
    + intros Hall fuel. unfold get_bq_client.
      rewrite (while_retry_forever libs Hall fuel 0 initial_locals eq_refl).
      reflexivity.
Qed.

(** C10, as stated, fails when the error comes from [project_path]: the
    first pass raises an error without the service-account text, the loop
    ends after that one pass, and [client] is bound. *)
Lemma get_bq_client_client_bound_counterexample :
  raised ((fun _ => stale_library) 0) = Some AttributeError /\
  isinstance_Exception AttributeError = true /\
  contains SERVICE_ACCOUNT_NOT_FOUND (str AttributeError) = false /\
  while_retry 1 (fun _ => stale_library) 0 initial_locals =
    Some (inl {| retry := false; credentials := Some "token";
                 client := Some (mk_Client "token"); parent := None |}) /\
  client {| retry := false; credentials := Some "token";
            client := Some (mk_Client "token"); parent := None |} <> None /\
  get_bq_client 1 (fun _ => stale_library) =
    Some (UnboundLocalError "parent").
Proof.
  repeat split; try reflexivity. discriminate.
Qed.

(** C10, amended. If the first pass of the loop raises an [Exception]
    whose text does not contain the service-account message, the function
    does not return a client: the loop ends after that pass with [parent]
    unbound, and with [client] bound only if the pass had constructed the
    client before it failed. The [return] statement therefore raises
    [UnboundLocalError], on [client] or, when [client] is bound, on
    [parent]; the original error does not reach the caller. *)
Theorem get_bq_client_unbound_after_first_failure :
  forall (libs : nat -> library) (e : exn),
    raised (libs 0) = Some e ->
    isinstance_Exception e = true ->
    contains SERVICE_ACCOUNT_NOT_FOUND (str e) = false ->
    exists l,
      while_retry 1 libs 0 initial_locals = Some (inl l) /\
      retry l = false /\
      parent l = None /\
      client l = constructed_client (libs 0) /\
      forall fuel, 0 < fuel ->
        get_bq_client fuel libs =
          Some (UnboundLocalError
                  (match constructed_client (libs 0) with
                   | None => "client"
                   | Some _ => "parent"
                   end)) /\
        get_bq_client fuel libs <> Some (Propagates e) /\
        (forall c p, get_bq_client fuel libs <> Some (Returns (c, p))).
Proof.
  intros libs e Hraised He Hc.
  destruct (loop_body_swallows (libs 0) initial_locals e Hraised He Hc)
    as (l & Hb & Hr & Hp & Hcl).
  simpl in Hp.
  assert (Hcl' : client l = constructed_client (libs 0)).
  { rewrite Hcl. destruct (constructed_client (libs 0)); reflexivity. }
  assert (Hrun : while_retry 1 libs 0 initial_locals = Some (inl l)).
  { simpl. rewrite Hb, Hr. reflexivity. }
  exists l. repeat split; trivial.
  - unfold get_bq_client.
    rewrite (while_retry_more_fuel libs 1 fuel 0 initial_locals _ Hrun)
      by lia.
    unfold return_client_parent. rewrite Hp, Hcl'.
    destruct (constructed_client (libs 0)); reflexivity.
  - unfold get_bq_client.
    rewrite (while_retry_more_fuel libs 1 fuel 0 initial_locals _ Hrun)
      by lia.
    unfold return_client_parent. rewrite Hp.
    destruct (client l); discriminate.
  - intros c p. unfold get_bq_client.
    rewrite (while_retry_more_fuel libs 1 fuel 0 initial_locals _ Hrun)
      by lia.
    unfold return_client_parent. rewrite Hp.
    destruct (client l); discriminate.
Qed.

Lemma get_bq_client_unbound_after_first_failure_witness :
  exists l,
    while_retry 1 (fun _ => missing_token_library) 0 initial_locals =
      Some (inl l) /\
    retry l = false /\
    parent l = None /\
    client l = constructed_client missing_token_library /\
    forall fuel, 0 < fuel ->
      get_bq_client fuel (fun _ => missing_token_library) =
        Some (UnboundLocalError
                (match constructed_client missing_token_library with
                 | None => "client"
                 | Some _ => "parent"
                 end)) /\
      get_bq_client fuel (fun _ => missing_token_library) <>
        Some (Propagates FileNotFoundError) /\
      (forall c p, get_bq_client fuel (fun _ => missing_token_library) <>
                     Some (Returns (c, p))).
Proof.
  apply (get_bq_client_unbound_after_first_failure
           (fun _ => missing_token_library) FileNotFoundError);
    reflexivity.
Defined.

(** ** Running the reconciler against any handler *)

Section AnyHandler.

Context {S : Type} (h : handler S).

Lemma run_call_returns {R : Type} (c : call) (k : answer c -> prog R)
    (s s' : S) (a : answer c) :
  h c s = (inr a, s') ->
  run h (Call c k) s =
    (let '(o, s'', log) := run h (k a) s' in (o, s'', c :: log)).
Proof. intros H. simpl. rewrite H. reflexivity. Qed.

Lemma run_call_raises {R : Type} (c : call) (k : answer c -> prog R)
    (s s' : S) (e : exn) :
  h c s = (inl e, s') -> run h (Call c k) s = (Propagates e, s', [c]).
Proof. intros H. simpl. rewrite H. reflexivity. Qed.

(** The loop is a search for the first listed entry with the display
    name. *)
Lemma for_scheduled_query_find (table_name : string)
    (transfer_config : TransferConfig) (otherwise : prog string) :
  forall configs,
    for_scheduled_query table_name transfer_config configs otherwise =
    match find (named table_name) configs with
    | Some first => update_and_run transfer_config first
    | None => otherwise
    end.
Proof.
  induction configs as [| c rest IH]; simpl.
  - reflexivity.
  - unfold named at 1. destruct (display_name c =? table_name)%string.
    + reflexivity.
    + exact IH.
Qed.

(** What [get_bq_client] leaves to do. *)
Lemma create_or_update_runs_reconcile (fuel : nat) (libs : nat -> library)
    (c : Client) (p : string) (FLAGS : flags) (s : S) :
  get_bq_client fuel libs = Some (Returns (c, p)) ->
  create_or_update_scheduled_query h fuel libs FLAGS s =
    Some (run h (reconcile p FLAGS) s).
Proof.
  intros H. unfold create_or_update_scheduled_query. rewrite H. reflexivity.
Qed.

(** The run of the update branch, call by call. *)
Lemma run_update_and_run (transfer_config first updated : TransferConfig)
    (s s3 s4 s5 : S) (now : Timestamp) :
  h (update_transfer_config (set_name transfer_config (name first))
       ["params"]) s = (inr updated, s3) ->
  h GetCurrentTime s3 = (inr now, s4) ->
  h (start_manual_transfer_runs (name first) now) s4 = (inr tt, s5) ->
  run h (update_and_run transfer_config first) s =
    (Returns ("Updated scheduled query '" ++ name updated ++ "'"), s5,
     [update_transfer_config (set_name transfer_config (name first))
        ["params"];
      GetCurrentTime;
      start_manual_transfer_runs (name first) now]).
Proof.
  intros Hu Hn Hr. unfold update_and_run.
  rewrite (run_call_returns _ _ _ _ _ Hu).
  rewrite (run_call_returns _ _ _ _ _ Hn).
  simpl name at 1.
  rewrite (run_call_returns _ _ _ _ _ Hr).
  reflexivity.
Qed.

End AnyHandler.

Lemma find_named_some (table_name : string) (l : list TransferConfig)
    (e : TransferConfig) :
  In e l -> display_name e = table_name ->
  exists first, find (named table_name) l = Some first /\
                In first l /\ display_name first = table_name.
Proof.
  intros Hin Hd.
  destruct (find (named table_name) l) as [first |] eqn:Hf.
  - exists first. apply find_some in Hf. destruct Hf as [Hin' Hn].
    repeat split; trivial. apply String.eqb_eq. exact Hn.
  - exfalso. apply (find_none _ _ Hf) in Hin. unfold named in Hin.
    rewrite Hd, String.eqb_refl in Hin. discriminate.
Qed.

Lemma find_named_none (table_name : string) (l : list TransferConfig) :
  (forall e, In e l -> display_name e <> table_name) ->
  find (named table_name) l = None.
Proof.
  intros H. destruct (find (named table_name) l) as [first |] eqn:Hf.
  - apply find_some in Hf. destruct Hf as [Hin Hn].
    apply String.eqb_eq in Hn. exfalso. exact (H first Hin Hn).
  - reflexivity.
Qed.

(** C1. Reconciliation is an upsert keyed on the display name. Once the
    client is obtained, the query file read and the configurations listed:
    if some listed entry has the table name as its display name, the first
    such entry is updated and the function returns
    ["Updated scheduled query '<name>'"] with the name of the resource that
    the update call returned; if no listed entry has it, the function makes
    one create call with the full message (schedule included) and returns
    ["Created scheduled query '<name>'"] with the name of the created
    resource. *)
Theorem reconcile_is_upsert_on_display_name :
  forall (S : Type) (h : handler S) (fuel : nat) (libs : nat -> library)
         (c : Client) (p : string) (FLAGS : flags)
         (s0 s1 s2 : S) (text : string) (listed : list TransferConfig),
    get_bq_client fuel libs = Some (Returns (c, p)) ->
    h (open_read (query_file FLAGS)) s0 = (inr text, s1) ->
    h (list_transfer_configs p) s1 = (inr listed, s2) ->
    (forall e, In e listed -> display_name e = table FLAGS ->
       exists first,
         find (named (table FLAGS)) listed = Some first /\
         In first listed /\ display_name first = table FLAGS /\
         forall (updated : TransferConfig) (now : Timestamp) (s3 s4 s5 : S),
           h (update_transfer_config
                (set_name (build_transfer_config (table FLAGS) text)
                   (name first)) ["params"]) s2 = (inr updated, s3) ->
           h GetCurrentTime s3 = (inr now, s4) ->
           h (start_manual_transfer_runs (name first) now) s4
             = (inr tt, s5) ->
           create_or_update_scheduled_query h fuel libs FLAGS s0 =
             Some (Returns ("Updated scheduled query '" ++ name updated
                            ++ "'"), s5,
                   [open_read (query_file FLAGS);
                    list_transfer_configs p;
                    update_transfer_config
                      (set_name (build_transfer_config (table FLAGS) text)
                         (name first)) ["params"];
                    GetCurrentTime;
                    start_manual_transfer_runs (name first) now])) /\
    ((forall e, In e listed -> display_name e <> table FLAGS) ->
     forall (created : TransferConfig) (s3 : S),
       h (create_transfer_config p
            (build_transfer_config (table FLAGS) text)) s2
         = (inr created, s3) ->
       schedule (build_transfer_config (table FLAGS) text)
         = "every 24 hours" /\
       create_or_update_scheduled_query h fuel libs FLAGS s0 =
         Some (Returns ("Created scheduled query '" ++ name created ++ "'"),
               s3,
               [open_read (query_file FLAGS);
                list_transfer_configs p;
                create_transfer_config p
                  (build_transfer_config (table FLAGS) text)])).
Proof.
  intros S h fuel libs c p FLAGS s0 s1 s2 text listed Hget Hopen Hlist.
  rewrite (create_or_update_runs_reconcile h fuel libs c p FLAGS s0 Hget).
  unfold reconcile.
  rewrite (run_call_returns h _ _ _ _ _ Hopen).
  rewrite (run_call_returns h _ _ _ _ _ Hlist).
  rewrite for_scheduled_query_find.
  split.
  - intros e Hin Hd.
    destruct (find_named_some _ _ _ Hin Hd) as (first & Hf & Hin' & Hd').
    exists first. repeat split; trivial.
    intros updated now s3 s4 s5 Hu Hn Hr.
    rewrite Hf, (run_update_and_run h _ _ _ _ _ _ _ _ Hu Hn Hr).
    reflexivity.
  - intros Hnone created s3 Hcreate.
    split; [reflexivity |].
    rewrite (find_named_none _ _ Hnone).
    rewrite (run_call_returns h _ _ _ _ _ Hcreate).
    reflexivity.
Qed.

Lemma reconcile_is_upsert_on_display_name_witness :
  create_or_update_scheduled_query (service longer_name) 1
    (fun _ => working_library) deployments_flags sample_world =
  Some (Returns
          "Updated scheduled query 'projects/four-metrics/transferConfigs/1'",
        add_manual_run
          (tick (set_transfer_configs sample_world
             [stored_changes;
              set_params stored_deployments
                (params (build_transfer_config "deployments" "SELECT 1"));
              stored_duplicate]))
          "projects/four-metrics/transferConfigs/1" 1000,
        [open_read "queries/deployments.sql";
         list_transfer_configs "projects/four-metrics";
         update_transfer_config
           (set_name (build_transfer_config "deployments" "SELECT 1")
              "projects/four-metrics/transferConfigs/1") ["params"];
         GetCurrentTime;
         start_manual_transfer_runs
           "projects/four-metrics/transferConfigs/1" 1000]).
Proof.
  destruct (reconcile_is_upsert_on_display_name world (service longer_name)
              1 (fun _ => working_library) (mk_Client "token")
              "projects/four-metrics" deployments_flags
              sample_world sample_world sample_world "SELECT 1"
              (transfer_configs sample_world)
              eq_refl eq_refl eq_refl) as [Hupdate _].
  destruct (Hupdate stored_deployments (or_intror (or_introl eq_refl))
              eq_refl) as (first & Hfind & _ & _ & Hrun).
  injection Hfind as <-.
  exact (Hrun _ _ _ _ _ eq_refl eq_refl eq_refl).
Defined.

(** Every log that a run of [reconcile] can leave, whatever the handler
    answers: the run stops at the first call that raises. *)
Lemma reconcile_log_cases {S : Type} (h : handler S) (p : string)
    (FLAGS : flags) (s0 : S) :
  forall out s' log,
    run h (reconcile p FLAGS) s0 = (out, s', log) ->
    log = [open_read (query_file FLAGS)] \/
    exists text s1,
      h (open_read (query_file FLAGS)) s0 = (inr text, s1) /\
      (log = [open_read (query_file FLAGS); list_transfer_configs p] \/
       log = [open_read (query_file FLAGS); list_transfer_configs p;
              create_transfer_config p
                (build_transfer_config (table FLAGS) text)] \/
       exists first,
         display_name first = table FLAGS /\
         (log = [open_read (query_file FLAGS); list_transfer_configs p;
                 update_transfer_config
                   (set_name (build_transfer_config (table FLAGS) text)
                      (name first)) ["params"]] \/
          log = [open_read (query_file FLAGS); list_transfer_configs p;
                 update_transfer_config
                   (set_name (build_transfer_config (table FLAGS) text)
                      (name first)) ["params"];
                 GetCurrentTime] \/
          exists now,
            log = [open_read (query_file FLAGS); list_transfer_configs p;
                   update_transfer_config
                     (set_name (build_transfer_config (table FLAGS) text)
                        (name first)) ["params"];
                   GetCurrentTime;
                   start_manual_transfer_runs (name first) now])).
Proof.
  intros out s' log. unfold reconcile. simpl.
  destruct (h (open_read (query_file FLAGS)) s0) as [[e | text] s1] eqn:Ho.
  { intros [= _ _ <-]. left. reflexivity. }
  simpl.
  destruct (h (list_transfer_configs p) s1) as [[e | listed] s2].
  { intros [= _ _ <-]. right. exists text, s1. auto. }
  rewrite for_scheduled_query_find.
  destruct (find (named (table FLAGS)) listed) as [first |] eqn:Hf.
  - apply find_some in Hf. destruct Hf as [_ Hn]. apply String.eqb_eq in Hn.
    unfold update_and_run. simpl.
    destruct (h (update_transfer_config _ _) s2) as [[e | updated] s3].
    { intros [= _ _ <-]. right. exists text, s1. split; [reflexivity |].
      right. right. exists first. auto. }
    simpl.
    destruct (h GetCurrentTime s3) as [[e | now] s4].
    { intros [= _ _ <-]. right. exists text, s1. split; [reflexivity |].
      right. right. exists first. auto. }
    simpl.
    destruct (h (start_manual_transfer_runs _ _) s4) as [[e | []] s5];
      intros [= _ _ <-]; right; exists text, s1; (split; [reflexivity |]);
      right; right; exists first;
      (split; [assumption |]); right; right; exists now; reflexivity.
  - simpl.
    destruct (h (create_transfer_config _ _) s2) as [[e | created] s3];
      intros [= _ _ <-]; right; exists text, s1; (split; [reflexivity |]);
      right; left; reflexivity.
Qed.

(** C6. Once the client is obtained, the query file read and the
    configurations listed: on the update path, after the update call has
    returned, the function reads the clock and makes exactly one manual-run
    call, for the resource name of the updated configuration and stamped
    with the time just read; that call directly follows the update (only
    the clock read lies between). An update call that raises is followed by
    no manual-run call. On the create path no manual-run call is made. *)
Theorem manual_run_follows_successful_update_only :
  forall (S : Type) (h : handler S) (fuel : nat) (libs : nat -> library)
         (c : Client) (p : string) (FLAGS : flags)
         (s0 s1 s2 : S) (text : string) (listed : list TransferConfig),
    get_bq_client fuel libs = Some (Returns (c, p)) ->
    h (open_read (query_file FLAGS)) s0 = (inr text, s1) ->
    h (list_transfer_configs p) s1 = (inr listed, s2) ->
    (forall first,
       find (named (table FLAGS)) listed = Some first ->
       (forall (updated : TransferConfig) (now : Timestamp)
               (r : exn + unit) (s3 s4 s5 : S),
          h (update_transfer_config
               (set_name (build_transfer_config (table FLAGS) text)
                  (name first)) ["params"]) s2 = (inr updated, s3) ->
          h GetCurrentTime s3 = (inr now, s4) ->
          h (start_manual_transfer_runs (name first) now) s4 = (r, s5) ->
          exists out log,
            create_or_update_scheduled_query h fuel libs FLAGS s0 =
              Some (out, s5, log) /\
            log = [open_read (query_file FLAGS);
                   list_transfer_configs p;
                   update_transfer_config
                     (set_name (build_transfer_config (table FLAGS) text)
                        (name first)) ["params"];
                   GetCurrentTime;
                   start_manual_transfer_runs (name first) now] /\
            filter is_manual_run log =
              [start_manual_transfer_runs (name first) now] /\
            filter is_create log = []) /\
       (forall (e : exn) (s3 : S),
          h (update_transfer_config
               (set_name (build_transfer_config (table FLAGS) text)
                  (name first)) ["params"]) s2 = (inl e, s3) ->
          exists log,
            create_or_update_scheduled_query h fuel libs FLAGS s0 =
              Some (Propagates e, s3, log) /\
            filter is_manual_run log = [])) /\
    (find (named (table FLAGS)) listed = None ->
     forall (r : exn + TransferConfig) (s3 : S),
       h (create_transfer_config p
            (build_transfer_config (table FLAGS) text)) s2 = (r, s3) ->
       exists out log,
         create_or_update_scheduled_query h fuel libs FLAGS s0 =
           Some (out, s3, log) /\
         filter is_create log =
           [create_transfer_config p
              (build_transfer_config (table FLAGS) text)] /\
         filter is_manual_run log = [] /\
         filter is_update log = []).
Proof.
  intros S h fuel libs c p FLAGS s0 s1 s2 text listed Hget Hopen Hlist.
  rewrite (create_or_update_runs_reconcile h fuel libs c p FLAGS s0 Hget).
  unfold reconcile.
  rewrite (run_call_returns h _ _ _ _ _ Hopen).
  rewrite (run_call_returns h _ _ _ _ _ Hlist).
  rewrite for_scheduled_query_find.
  split.
  - intros first Hf. rewrite Hf. unfold update_and_run. split.
    + intros updated now r s3 s4 s5 Hu Hn Hr.
      rewrite (run_call_returns h _ _ _ _ _ Hu).
      rewrite (run_call_returns h _ _ _ _ _ Hn).
      simpl name at 1.
      destruct r as [e | []].
      * rewrite (run_call_raises h _ _ _ _ _ Hr).
        do 2 eexists. repeat split.
      * rewrite (run_call_returns h _ _ _ _ _ Hr).
        do 2 eexists. repeat split.
    + intros e s3 Hu.
      rewrite (run_call_raises h _ _ _ _ _ Hu).
      eexists. split; reflexivity.
  - intros Hf r s3 Hc. rewrite Hf.
    destruct r as [e | created].
    + rewrite (run_call_raises h _ _ _ _ _ Hc).
      do 2 eexists. repeat split.
    + rewrite (run_call_returns h _ _ _ _ _ Hc).
      do 2 eexists. repeat split.
Qed.

Lemma manual_run_follows_successful_update_only_witness :
  exists out log,
    create_or_update_scheduled_query (service longer_name) 1
      (fun _ => working_library) deployments_flags sample_world =
      Some (out,
            add_manual_run
              (tick (set_transfer_configs sample_world
                 [stored_changes;
                  set_params stored_deployments
                    (params (build_transfer_config "deployments"
                               "SELECT 1"));
                  stored_duplicate]))
              "projects/four-metrics/transferConfigs/1" 1000,
            log) /\
    log = [open_read "queries/deployments.sql";
           list_transfer_configs "projects/four-metrics";
           update_transfer_config
             (set_name (build_transfer_config "deployments" "SELECT 1")
                "projects/four-metrics/transferConfigs/1") ["params"];
           GetCurrentTime;
           start_manual_transfer_runs
             "projects/four-metrics/transferConfigs/1" 1000] /\
    filter is_manual_run log =
      [start_manual_transfer_runs
         "projects/four-metrics/transferConfigs/1" 1000] /\
    filter is_create log = [].
Proof.
  destruct (manual_run_follows_successful_update_only world
              (service longer_name) 1 (fun _ => working_library)
              (mk_Client "token") "projects/four-metrics" deployments_flags
              sample_world sample_world sample_world "SELECT 1"
              (transfer_configs sample_world)
              eq_refl eq_refl eq_refl) as [Hupdate _].
  destruct (Hupdate stored_deployments eq_refl) as [Hrun _].
  exact (Hrun _ _ _ _ _ _ eq_refl eq_refl eq_refl).
Defined.

(** ** The transfer service *)

Lemma write_path_name (src dst : TransferConfig) (path : string) :
  name (write_path src dst path) = name dst.
Proof.
  unfold write_path.
  repeat match goal with
         | |- context [if ?b then _ else _] => destruct b
         end; reflexivity.
Qed.

(** No field mask reaches the resource name. *)
Lemma apply_mask_name (mask : list string) (src : TransferConfig) :
  forall dst, name (apply_mask mask src dst) = name dst.
Proof.
  unfold apply_mask. induction mask as [| path mask IH]; intros dst; simpl.
  - reflexivity.
  - rewrite IH. apply write_path_name.
Qed.

Lemma apply_mask_params (src dst : TransferConfig) :
  apply_mask ["params"] src dst = set_params dst (params src).
Proof. reflexivity. Qed.

Lemma update_stored_names (src : TransferConfig) (mask : list string)
    (stored : list TransferConfig) :
  map name (update_stored src mask stored) = map name stored.
Proof.
  unfold update_stored. rewrite map_map. apply map_ext. intros c.
  destruct (name c =? name src)%string; [apply apply_mask_name | reflexivity].
Qed.

Lemma update_stored_length (src : TransferConfig) (mask : list string)
    (stored : list TransferConfig) :
  List.length (update_stored src mask stored) = List.length stored.
Proof. unfold update_stored. apply length_map. Qed.

(** Looking a resource name up among the stored configurations. *)
Lemma find_name_in (n : string) (stored : list TransferConfig) :
  In n (map name stored) ->
  exists c, find (fun c => (name c =? n)%string) stored = Some c /\
            name c = n.
Proof.
  intros Hin. apply in_map_iff in Hin. destruct Hin as (c0 & Hn & Hin).
  destruct (find (fun c => (name c =? n)%string) stored) as [c |] eqn:Hf.
  - exists c. split; [reflexivity |]. apply find_some in Hf.
    apply String.eqb_eq. apply Hf.
  - apply (find_none _ _ Hf) in Hin. simpl in Hin.
    rewrite Hn, String.eqb_refl in Hin. discriminate.
Qed.

Lemma existsb_name_in (n : string) (stored : list TransferConfig) :
  In n (map name stored) ->
  existsb (fun c => (name c =? n)%string) stored = true.
Proof.
  intros Hin. apply in_map_iff in Hin. destruct Hin as (c0 & Hn & Hin).
  apply existsb_exists. exists c0. split; [assumption |].
  rewrite Hn. apply String.eqb_refl.
Qed.

(** Under unique resource names, an update rewrites one stored entry. *)
Lemma update_stored_unique (src first : TransferConfig) (mask : list string)
    (pre post : list TransferConfig) :
  NoDup (map name (pre ++ first :: post)) ->
  name src = name first ->
  update_stored src mask (pre ++ first :: post) =
    (pre ++ apply_mask mask src first :: post)%list.
Proof.
  intros Hnd Hname. unfold update_stored.
  rewrite map_app in Hnd. simpl in Hnd.
  apply NoDup_remove_2 in Hnd.
  assert (Hkeep : forall l, (forall c, In c l -> In (name c) (map name l)) ->
            ~ In (name first) (map name l) ->
            map (fun c => if (name c =? name src)%string
                          then apply_mask mask src c else c) l = l).
  { intros l _ Hnot. rewrite <- (map_id l) at 2. apply map_ext_in.
    intros c Hc. destruct (String.eqb_spec (name c) (name src)) as [E | _];
      [| reflexivity].
    exfalso. apply Hnot. rewrite <- Hname, <- E. apply in_map. exact Hc. }
  rewrite map_app. simpl. rewrite Hname, String.eqb_refl.
  rewrite <- Hname.
  rewrite (Hkeep pre), (Hkeep post); trivial.
  - intros c Hc. apply in_map. exact Hc.
  - intros Hin. apply Hnd. apply in_or_app. right. exact Hin.
  - intros c Hc. apply in_map. exact Hc.
  - intros Hin. apply Hnd. apply in_or_app. left. exact Hin.
Qed.

(** The first entry with a display name splits the list. *)
Lemma find_named_split (table_name : string) :
  forall (l : list TransferConfig) (first : TransferConfig),
    find (named table_name) l = Some first ->
    exists pre post,
      l = (pre ++ first :: post)%list /\
      display_name first = table_name /\
      (forall c, In c pre -> display_name c <> table_name).
Proof.
  induction l as [| c l IH]; intros first Hf; simpl in Hf; [discriminate |].
  unfold named at 1 in Hf.
  destruct (String.eqb_spec (display_name c) table_name) as [E | N].
  - injection Hf as <-. exists [], l. repeat split; trivial.
    intros c' [].
  - destruct (IH first Hf) as (pre & post & -> & Hd & Hpre).
    exists (c :: pre), post. repeat split; trivial.
    intros c' [<- | Hin]; [exact N | exact (Hpre c' Hin)].
Qed.

Section Service.

Variable assign_name : string -> list TransferConfig -> string.

(** The update path against the service, from the listing on: the first
    entry with the display name is found, its resource is updated under the
    mask, and one manual run is recorded at the time of the clock. *)
Lemma service_update_path (fuel : nat) (libs : nat -> library) (c : Client)
    (p : string) (FLAGS : flags) (w : world) (text : string)
    (first : TransferConfig) :
  get_bq_client fuel libs = Some (Returns (c, p)) ->
  read_file (query_file FLAGS) (files w) = Some text ->
  find (named (table FLAGS)) (transfer_configs w) = Some first ->
  create_or_update_scheduled_query (service assign_name) fuel libs FLAGS w =
    Some (Returns ("Updated scheduled query '" ++ name first ++ "'"),
          add_manual_run
            (tick (set_transfer_configs w
               (update_stored
                  (set_name (build_transfer_config (table FLAGS) text)
                     (name first)) ["params"] (transfer_configs w))))
            (name first) (clock w),
          [open_read (query_file FLAGS);
           list_transfer_configs p;
           update_transfer_config
             (set_name (build_transfer_config (table FLAGS) text)
                (name first)) ["params"];
           GetCurrentTime;
           start_manual_transfer_runs (name first) (clock w)]).
Proof.
  intros Hget Hread Hfind.
  rewrite (create_or_update_runs_reconcile _ fuel libs c p FLAGS w Hget).
  assert (Hin : In (name first) (map name (transfer_configs w))).
  { apply in_map. apply (find_some _ _ Hfind). }
  set (src := set_name (build_transfer_config (table FLAGS) text)
                (name first)).
  set (stored := update_stored src ["params"] (transfer_configs w)).
  assert (Hin' : In (name first) (map name stored)).
  { unfold stored. rewrite update_stored_names. exact Hin. }
  destruct (find_name_in _ _ Hin') as (updated & Hupd & Hname).
  unfold reconcile.
  rewrite (run_call_returns (service assign_name)
             (open_read (query_file FLAGS)) _ w w text)
    by (simpl; rewrite Hread; reflexivity).
  rewrite (run_call_returns (service assign_name)
             (list_transfer_configs p) _ w w (transfer_configs w))
    by reflexivity.
  rewrite for_scheduled_query_find, Hfind.
  rewrite (run_update_and_run (service assign_name) _ first updated w
             (set_transfer_configs w stored)
             (tick (set_transfer_configs w stored))
             (add_manual_run (tick (set_transfer_configs w stored))
                (name first) (clock w))
             (clock w)).
  - rewrite Hname. reflexivity.
  - simpl. fold src. fold stored. simpl in Hupd. rewrite Hupd. reflexivity.
  - reflexivity.
  - simpl. rewrite (existsb_name_in _ _ Hin'). reflexivity.
Qed.

(** The create path against the service: the message is stored under the
    name that the service assigns. *)
Lemma service_create_path (fuel : nat) (libs : nat -> library) (c : Client)
    (p : string) (FLAGS : flags) (w : world) (text : string) :
  get_bq_client fuel libs = Some (Returns (c, p)) ->
  read_file (query_file FLAGS) (files w) = Some text ->
  find (named (table FLAGS)) (transfer_configs w) = None ->
  create_or_update_scheduled_query (service assign_name) fuel libs FLAGS w =
    Some (Returns ("Created scheduled query '"
                   ++ assign_name p (transfer_configs w) ++ "'"),
          set_transfer_configs w
            (transfer_configs w ++
             [set_name (build_transfer_config (table FLAGS) text)
                (assign_name p (transfer_configs w))])%list,
          [open_read (query_file FLAGS);
           list_transfer_configs p;
           create_transfer_config p
             (build_transfer_config (table FLAGS) text)]).
Proof.
  intros Hget Hread Hfind.
  rewrite (create_or_update_runs_reconcile _ fuel libs c p FLAGS w Hget).
  unfold reconcile.
  rewrite (run_call_returns (service assign_name)
             (open_read (query_file FLAGS)) _ w w text)
    by (simpl; rewrite Hread; reflexivity).
  rewrite (run_call_returns (service assign_name)
             (list_transfer_configs p) _ w w (transfer_configs w))
    by reflexivity.
  rewrite for_scheduled_query_find, Hfind.
  reflexivity.
Qed.

End Service.

(** ** What the requests carry *)

Lemma create_or_update_log {S : Type} (h : handler S) (fuel : nat)
    (libs : nat -> library) (FLAGS : flags) (s s' : S)
    (out : outcome string) (log : list call) :
  create_or_update_scheduled_query h fuel libs FLAGS s = Some (out, s', log) ->
  log = [] \/ exists p, run h (reconcile p FLAGS) s = (out, s', log).
Proof.
  unfold create_or_update_scheduled_query.
  destruct (get_bq_client fuel libs) as [[[c p] | e | v] |].
  - intros [= H]. right. exists p. exact H.
  - intros [= _ _ <-]. left. reflexivity.
  - intros [= _ _ <-]. left. reflexivity.
  - discriminate.
Qed.

(** Splits a membership in an explicit log into its cases. *)
Ltac in_log H :=
  simpl in H;
  repeat (destruct H as [H | H]);
  try contradiction; try discriminate.

(** The requests that change a configuration, as they appear in a log. *)
Lemma reconcile_requests {S : Type} (h : handler S) (fuel : nat)
    (libs : nat -> library) (FLAGS : flags) (s0 s1 s' : S) (text : string)
    (out : outcome string) (log : list call) :
  h (open_read (query_file FLAGS)) s0 = (inr text, s1) ->
  create_or_update_scheduled_query h fuel libs FLAGS s0
    = Some (out, s', log) ->
  (forall p cfg, In (create_transfer_config p cfg) log ->
     cfg = build_transfer_config (table FLAGS) text) /\
  (forall cfg mask, In (update_transfer_config cfg mask) log ->
     mask = ["params"] /\
     exists n, cfg = set_name (build_transfer_config (table FLAGS) text) n).
Proof.
  intros Hopen Hrun.
  destruct (create_or_update_log h fuel libs FLAGS s0 s' out log Hrun)
    as [-> | (p & Hp)].
  { split; intros; contradiction. }
  destruct (reconcile_log_cases h p FLAGS s0 out s' log Hp)
    as [-> | (text' & s1' & Hopen' & Hcases)].
  { split; intros; in_log H. }
  rewrite Hopen in Hopen'. injection Hopen' as <- <-.
  destruct Hcases as [-> | [-> | (first & _ & [-> | [-> | (now & ->)]])]].
  - split; intros; in_log H.
  - split; intros; in_log H. injection H as _ <-. reflexivity.
  - split; intros; in_log H. injection H as <- <-. eauto.
  - split; intros; in_log H. injection H as <- <-. eauto.
  - split; intros; in_log H. injection H as <- <-. eauto.
Qed.

(** C8. The message built from a table name and the text read from the
    query file has the fixed dataset ["four_keys"], the table name as
    display name, the data source ["scheduled_query"], the text as
    [params.query], the table name as destination table template, the
    write disposition ["WRITE_TRUNCATE"] and the schedule
    ["every 24 hours"]; and every create or update request of a run carries
    a message with exactly these values. *)
Theorem built_transfer_config_values :
  forall (S : Type) (h : handler S) (fuel : nat) (libs : nat -> library)
         (FLAGS : flags) (s0 s1 s' : S) (text : string)
         (out : outcome string) (log : list call),
    h (open_read (query_file FLAGS)) s0 = (inr text, s1) ->
    create_or_update_scheduled_query h fuel libs FLAGS s0
      = Some (out, s', log) ->
    forall cfg,
      cfg = build_transfer_config (table FLAGS) text \/
      (exists p, In (create_transfer_config p cfg) log) \/
      (exists mask, In (update_transfer_config cfg mask) log) ->
      destination_dataset_id cfg = "four_keys" /\
      display_name cfg = table FLAGS /\
      data_source_id cfg = "scheduled_query" /\
      query (params cfg) = text /\
      destination_table_name_template (params cfg) = table FLAGS /\
      write_disposition (params cfg) = "WRITE_TRUNCATE" /\
      schedule cfg = "every 24 hours".
Proof.
  intros S h fuel libs FLAGS s0 s1 s' text out log Hopen Hrun cfg Hcfg.
  destruct (reconcile_requests h fuel libs FLAGS s0 s1 s' text out log
              Hopen Hrun) as [Hcreate Hupdate].
  destruct Hcfg as [-> | [(p & Hin) | (mask & Hin)]].
  - repeat split.
  - rewrite (Hcreate p cfg Hin). repeat split.
  - destruct (Hupdate cfg mask Hin) as (_ & n & ->). repeat split.
Qed.

Lemma built_transfer_config_values_witness :
  destination_dataset_id (build_transfer_config "deployments" "SELECT 1")
    = "four_keys" /\
  display_name (build_transfer_config "deployments" "SELECT 1")
    = "deployments" /\
  data_source_id (build_transfer_config "deployments" "SELECT 1")
    = "scheduled_query" /\
  query (params (build_transfer_config "deployments" "SELECT 1"))
    = "SELECT 1" /\
  destination_table_name_template
    (params (build_transfer_config "deployments" "SELECT 1"))
    = "deployments" /\
  write_disposition (params (build_transfer_config "deployments" "SELECT 1"))
    = "WRITE_TRUNCATE" /\
  schedule (build_transfer_config "deployments" "SELECT 1")
    = "every 24 hours".
Proof.
  apply (built_transfer_config_values world (service longer_name) 1
           (fun _ => working_library) deployments_flags
           empty_world empty_world
           (set_transfer_configs empty_world
              [set_name (build_transfer_config "deployments" "SELECT 1")
                 (longer_name "projects/four-metrics" [])])
           "SELECT 1"
           (Returns ("Created scheduled query '"
                     ++ longer_name "projects/four-metrics" [] ++ "'"))
           [open_read "queries/deployments.sql";
            list_transfer_configs "projects/four-metrics";
            create_transfer_config "projects/four-metrics"
              (build_transfer_config "deployments" "SELECT 1")]
           eq_refl eq_refl
           (build_transfer_config "deployments" "SELECT 1")).
  right. left. exists "projects/four-metrics". simpl. auto.
Defined.

(** ** Effects on the stored configurations *)

(** An update under the mask [["params"]] keeps every field of a stored
    configuration but [params]. *)
Lemma update_stored_params_frame (src : TransferConfig) :
  forall stored,
    Forall2
      (fun before after =>
         name after = name before /\
         display_name after = display_name before /\
         schedule after = schedule before /\
         data_source_id after = data_source_id before /\
         destination_dataset_id after = destination_dataset_id before /\
         (after = before \/ after = set_params before (params src)))
      stored (update_stored src ["params"] stored).
Proof.
  induction stored as [| c stored IH]; simpl; constructor.
  - destruct (name c =? name src)%string; simpl; repeat split; auto.
  - exact IH.
Qed.

(** C2. Every update request that a run sends carries the field mask
    [["params"]], whatever the outside world answers. Against the transfer
    service, the update path therefore writes [params] only: the stored
    configurations keep their resource name, display name, schedule, data
    source and dataset, whatever values the message built by the script
    carries for them, and the entry that changes is rewritten in its
    [params] with those of the message. *)
Theorem update_writes_params_only :
  (forall (S : Type) (h : handler S) (fuel : nat) (libs : nat -> library)
          (FLAGS : flags) (s s' : S) (out : outcome string)
          (log : list call),
     create_or_update_scheduled_query h fuel libs FLAGS s
       = Some (out, s', log) ->
     forall cfg mask,
       In (update_transfer_config cfg mask) log -> mask = ["params"]) /\
  (forall (assign_name : string -> list TransferConfig -> string)
          (fuel : nat) (libs : nat -> library) (c : Client) (p : string)
          (FLAGS : flags) (w : world) (text : string)
          (first : TransferConfig),
     get_bq_client fuel libs = Some (Returns (c, p)) ->
     read_file (query_file FLAGS) (files w) = Some text ->
     find (named (table FLAGS)) (transfer_configs w) = Some first ->
     exists out w' log,
       create_or_update_scheduled_query (service assign_name) fuel libs
         FLAGS w = Some (out, w', log) /\
       filter is_update log =
         [update_transfer_config
            (set_name (build_transfer_config (table FLAGS) text)
               (name first)) ["params"]] /\
       Forall2
         (fun before after =>
            name after = name before /\
            display_name after = display_name before /\
            schedule after = schedule before /\
            data_source_id after = data_source_id before /\
            destination_dataset_id after = destination_dataset_id before /\
            (after = before \/
             after = set_params before
                       (params (build_transfer_config (table FLAGS) text))))
         (transfer_configs w) (transfer_configs w') /\
       exists after,
         In after (transfer_configs w') /\
         name after = name first /\
         params after = params (build_transfer_config (table FLAGS) text)).
Proof.
  split.
  - intros S h fuel libs FLAGS s s' out log Hrun cfg mask Hin.
    destruct (create_or_update_log h fuel libs FLAGS s s' out log Hrun)
      as [-> | (p & Hp)]; [contradiction |].
    destruct (reconcile_log_cases h p FLAGS s out s' log Hp)
      as [-> | (text & s1 & _ &
                [-> | [-> | (first & _ & [-> | [-> | (now & ->)]])]])];
      in_log Hin; injection Hin as _ <-; reflexivity.
  - intros assign_name fuel libs c p FLAGS w text first Hget Hread Hfind.
    rewrite (service_update_path assign_name fuel libs c p FLAGS w text
               first Hget Hread Hfind).
    do 3 eexists. split; [reflexivity |]. split; [reflexivity |]. simpl.
    split.
    + apply (update_stored_params_frame
               (set_name (build_transfer_config (table FLAGS) text)
                  (name first))).
    + exists (set_params first
                (params (build_transfer_config (table FLAGS) text))).
      repeat split.
      unfold update_stored. apply in_map_iff. exists first.
      simpl. rewrite String.eqb_refl. split; [reflexivity |].
      apply (find_some _ _ Hfind).
Qed.

Lemma update_writes_params_only_witness :
  exists out w' log,
    create_or_update_scheduled_query (service longer_name) 1
      (fun _ => working_library) deployments_flags sample_world
      = Some (out, w', log) /\
    filter is_update log =
      [update_transfer_config
         (set_name (build_transfer_config "deployments" "SELECT 1")
            "projects/four-metrics/transferConfigs/1") ["params"]] /\
    Forall2
      (fun before after =>
         name after = name before /\
         display_name after = display_name before /\
         schedule after = schedule before /\
         data_source_id after = data_source_id before /\
         destination_dataset_id after = destination_dataset_id before /\
         (after = before \/
          after = set_params before
                    (params (build_transfer_config "deployments"
                               "SELECT 1"))))
      [stored_changes; stored_deployments; stored_duplicate]
      (transfer_configs w') /\
    exists after,
      In after (transfer_configs w') /\
      name after = "projects/four-metrics/transferConfigs/1" /\
      params after = params (build_transfer_config "deployments" "SELECT 1").
Proof.
  exact (proj2 update_writes_params_only longer_name 1
           (fun _ => working_library) (mk_Client "token")
           "projects/four-metrics" deployments_flags sample_world
           "SELECT 1" stored_deployments eq_refl eq_refl eq_refl).
Defined.

Lemma count_named_app (table_name : string) (l1 l2 : list TransferConfig) :
  count_named table_name (l1 ++ l2) =
    count_named table_name l1 + count_named table_name l2.
Proof. unfold count_named. rewrite filter_app. apply length_app. Qed.

Lemma count_named_none (table_name : string) (l : list TransferConfig) :
  (forall c, In c l -> display_name c <> table_name) ->
  count_named table_name l = 0.
Proof.
  intros H. unfold count_named. induction l as [| c l IH]; simpl.
  - reflexivity.
  - unfold named at 1.
    destruct (String.eqb_spec (display_name c) table_name) as [E | _].
    + exfalso. exact (H c (or_introl eq_refl) E).
    + apply IH. intros c' Hc'. apply H. right. exact Hc'.
Qed.

Lemma count_named_zero_find (table_name : string)
    (l : list TransferConfig) :
  count_named table_name l = 0 <-> find (named table_name) l = None.
Proof.
  unfold count_named. induction l as [| c l IH]; simpl.
  - split; reflexivity.
  - destruct (named table_name c); simpl.
    + split; discriminate.
    + exact IH.
Qed.

Lemma count_named_cons (table_name : string) (c : TransferConfig)
    (l : list TransferConfig) :
  count_named table_name (c :: l) =
    (if named table_name c then 1 else 0) + count_named table_name l.
Proof. unfold count_named. simpl. destruct (named table_name c); reflexivity. Qed.

(** C3. When two or more stored configurations have the table name as
    display name, the run takes the first of them in list order and no
    other: nothing before it in the list has the display name, the one
    update and the one manual run are sent for the resource name of that
    entry, copied onto the message, and the function returns that name.
    The service is asked to update that resource only, so, resource names
    identifying configurations, the stored list afterwards is the same but
    for the [params] of that entry: the later entries with the display name
    are as they were. *)
Theorem first_match_wins :
  forall (assign_name : string -> list TransferConfig -> string)
         (fuel : nat) (libs : nat -> library) (c : Client) (p : string)
         (FLAGS : flags) (w : world) (text : string),
    get_bq_client fuel libs = Some (Returns (c, p)) ->
    read_file (query_file FLAGS) (files w) = Some text ->
    2 <= count_named (table FLAGS) (transfer_configs w) ->
    exists pre first post w',
      transfer_configs w = (pre ++ first :: post)%list /\
      (forall x, In x pre -> display_name x <> table FLAGS) /\
      display_name first = table FLAGS /\
      1 <= count_named (table FLAGS) post /\
      create_or_update_scheduled_query (service assign_name) fuel libs
        FLAGS w =
        Some (Returns ("Updated scheduled query '" ++ name first ++ "'"),
              w',
              [open_read (query_file FLAGS);
               list_transfer_configs p;
               update_transfer_config
                 (set_name (build_transfer_config (table FLAGS) text)
                    (name first)) ["params"];
               GetCurrentTime;
               start_manual_transfer_runs (name first) (clock w)]) /\
      manual_runs w' = (manual_runs w ++ [(name first, clock w)])%list /\
      (well_formed w ->
       transfer_configs w' =
         (pre ++
          set_params first
            (params (build_transfer_config (table FLAGS) text))
          :: post)%list).
Proof.
  intros assign_name fuel libs c p FLAGS w text Hget Hread Hcount.
  destruct (find (named (table FLAGS)) (transfer_configs w))
    as [first |] eqn:Hfind.
  2: { apply count_named_zero_find in Hfind. lia. }
  destruct (find_named_split _ _ _ Hfind) as (pre & post & Hl & Hd & Hpre).
  exists pre, first, post. eexists.
  split; [exact Hl |]. split; [exact Hpre |]. split; [exact Hd |].
  split.
  { rewrite Hl, count_named_app, count_named_cons in Hcount.
    rewrite (count_named_none _ _ Hpre) in Hcount.
    destruct (named (table FLAGS) first); lia. }
  split.
  { apply (service_update_path assign_name fuel libs c p FLAGS w text
             first Hget Hread Hfind). }
  split; [reflexivity |].
  intros Hwf. simpl.
  unfold well_formed in Hwf. rewrite Hl in Hwf |- *.
  apply (update_stored_unique
           (set_name (build_transfer_config (table FLAGS) text)
              (name first))
           first ["params"] pre post Hwf eq_refl).
Qed.

Lemma first_match_wins_witness :
  exists pre first post w',
    transfer_configs sample_world = (pre ++ first :: post)%list /\
    (forall x, In x pre -> display_name x <> "deployments") /\
    display_name first = "deployments" /\
    1 <= count_named "deployments" post /\
    create_or_update_scheduled_query (service longer_name) 1
      (fun _ => working_library) deployments_flags sample_world =
      Some (Returns ("Updated scheduled query '" ++ name first ++ "'"),
            w',
            [open_read "queries/deployments.sql";
             list_transfer_configs "projects/four-metrics";
             update_transfer_config
               (set_name (build_transfer_config "deployments" "SELECT 1")
                  (name first)) ["params"];
             GetCurrentTime;
             start_manual_transfer_runs (name first) 1000]) /\
    manual_runs w' = (manual_runs sample_world ++ [(name first, 1000)])%list /\
    (well_formed sample_world ->
     transfer_configs w' =
       (pre ++
        set_params first
          (params (build_transfer_config "deployments" "SELECT 1"))
        :: post)%list).
Proof.
  apply (first_match_wins longer_name 1 (fun _ => working_library)
           (mk_Client "token") "projects/four-metrics" deployments_flags
           sample_world "SELECT 1" eq_refl eq_refl).
  unfold count_named. simpl. apply le_n.
Defined.

Lemma find_app_none {A : Type} (f : A -> bool) (l1 l2 : list A) :
  find f l1 = None -> find f (l1 ++ l2) = find f l2.
Proof.
  induction l1 as [| a l1 IH]; simpl; intros H.
  - reflexivity.
  - destruct (f a); [discriminate | exact (IH H)].
Qed.

(** An update under the mask [["params"]] changes no display name. *)
Lemma count_named_update_stored (table_name : string)
    (src : TransferConfig) (stored : list TransferConfig) :
  count_named table_name (update_stored src ["params"] stored) =
    count_named table_name stored.
Proof.
  induction stored as [| c stored IH]; [reflexivity |].
  change (update_stored src ["params"] (c :: stored))
    with ((if (name c =? name src)%string
           then apply_mask ["params"] src c else c)
          :: update_stored src ["params"] stored).
  rewrite !count_named_cons, IH. f_equal.
  destruct (name c =? name src)%string; reflexivity.
Qed.

(** C5. Against the transfer service, two runs in succession with the
    same flags, starting where no stored configuration has the table name
    as display name: the first run makes one create call and no update, the
    second makes one update call, for the resource created by the first,
    and no create; after either run exactly one stored configuration has
    that display name, and the second run adds none. *)
Theorem reconcile_twice_creates_once :
  forall (assign_name : string -> list TransferConfig -> string)
         (fuel1 fuel2 : nat) (libs1 libs2 : nat -> library)
         (c1 c2 : Client) (p : string) (FLAGS : flags) (w : world)
         (text : string),
    get_bq_client fuel1 libs1 = Some (Returns (c1, p)) ->
    get_bq_client fuel2 libs2 = Some (Returns (c2, p)) ->
    read_file (query_file FLAGS) (files w) = Some text ->
    count_named (table FLAGS) (transfer_configs w) = 0 ->
    exists created w1 log1 w2 log2,
      create_or_update_scheduled_query (service assign_name) fuel1 libs1
        FLAGS w =
        Some (Returns ("Created scheduled query '" ++ name created ++ "'"),
              w1, log1) /\
      filter is_create log1 =
        [create_transfer_config p
           (build_transfer_config (table FLAGS) text)] /\
      filter is_update log1 = [] /\
      transfer_configs w1 = (transfer_configs w ++ [created])%list /\
      display_name created = table FLAGS /\
      create_or_update_scheduled_query (service assign_name) fuel2 libs2
        FLAGS w1 =
        Some (Returns ("Updated scheduled query '" ++ name created ++ "'"),
              w2, log2) /\
      filter is_create log2 = [] /\
      filter is_update log2 =
        [update_transfer_config
           (set_name (build_transfer_config (table FLAGS) text)
              (name created)) ["params"]] /\
      count_named (table FLAGS) (transfer_configs w1) = 1 /\
      count_named (table FLAGS) (transfer_configs w2) = 1 /\
      List.length (transfer_configs w2) = List.length (transfer_configs w1).
Proof.
  intros assign_name fuel1 fuel2 libs1 libs2 c1 c2 p FLAGS w text
         Hget1 Hget2 Hread Hcount.
  pose proof (proj1 (count_named_zero_find _ _) Hcount) as Hfind.
  set (created := set_name (build_transfer_config (table FLAGS) text)
                    (assign_name p (transfer_configs w))).
  set (w1 := set_transfer_configs w (transfer_configs w ++ [created])%list).
  assert (Hfind1 : find (named (table FLAGS)) (transfer_configs w1)
                   = Some created).
  { simpl. rewrite (find_app_none _ _ _ Hfind). simpl. unfold named. simpl.
    rewrite String.eqb_refl. reflexivity. }
  assert (Hcount1 : count_named (table FLAGS) (transfer_configs w1) = 1).
  { simpl. rewrite count_named_app, Hcount, count_named_cons.
    unfold named. simpl. rewrite String.eqb_refl. reflexivity. }
  exists created, w1. do 3 eexists.
  split.
  { apply (service_create_path assign_name fuel1 libs1 c1 p FLAGS w text
             Hget1 Hread Hfind). }
  split; [reflexivity |]. split; [reflexivity |].
  split; [reflexivity |]. split; [reflexivity |].
  split.
  { apply (service_update_path assign_name fuel2 libs2 c2 p FLAGS w1 text
             created Hget2 Hread Hfind1). }
  split; [reflexivity |]. split; [reflexivity |].
  split; [exact Hcount1 |].
  split.
  - simpl transfer_configs at 1. rewrite count_named_update_stored.
    exact Hcount1.
  - simpl transfer_configs at 1. apply update_stored_length.
Qed.

Lemma reconcile_twice_creates_once_witness :
  exists created w1 log1 w2 log2,
    create_or_update_scheduled_query (service longer_name) 1
      (fun _ => working_library) deployments_flags empty_world =
      Some (Returns ("Created scheduled query '" ++ name created ++ "'"),
            w1, log1) /\
    filter is_create log1 =
      [create_transfer_config "projects/four-metrics"
         (build_transfer_config "deployments" "SELECT 1")] /\
    filter is_update log1 = [] /\
    transfer_configs w1 = (transfer_configs empty_world ++ [created])%list /\
    display_name created = "deployments" /\
    create_or_update_scheduled_query (service longer_name) 3
      (after_two_failures working_library) deployments_flags w1 =
      Some (Returns ("Updated scheduled query '" ++ name created ++ "'"),
            w2, log2) /\
    filter is_create log2 = [] /\
    filter is_update log2 =
      [update_transfer_config
         (set_name (build_transfer_config "deployments" "SELECT 1")
            (name created)) ["params"]] /\
    count_named "deployments" (transfer_configs w1) = 1 /\
    count_named "deployments" (transfer_configs w2) = 1 /\
    List.length (transfer_configs w2) = List.length (transfer_configs w1).
Proof.
  exact (reconcile_twice_creates_once longer_name 1 3
           (fun _ => working_library) (after_two_failures working_library)
           (mk_Client "token") (mk_Client "token") "projects/four-metrics"
           deployments_flags empty_world "SELECT 1"
           eq_refl eq_refl eq_refl eq_refl).
Defined.

Lemma well_formed_create (stored : list TransferConfig)
    (cfg : TransferConfig) (n : string) :
  NoDup (map name stored) -> ~ In n (map name stored) ->
  NoDup (map name (stored ++ [set_name cfg n])).
Proof.
  intros Hnd Hfresh. rewrite map_app. simpl.
  induction stored as [| c stored IH]; simpl in *.
  - constructor; [intros [] | constructor].
  - inversion Hnd as [| x l Hx Hl]; subst. constructor.
    + intros Hin. apply in_app_or in Hin. destruct Hin as [Hin | [E | []]].
      * exact (Hx Hin).
      * apply Hfresh. left. symmetry. exact E.
    + apply IH; [exact Hl |]. intros Hin. apply Hfresh. right. exact Hin.
Qed.

(** Where a run against the service leaves the stored configurations. *)
Lemma service_run_cases
    (assign_name : string -> list TransferConfig -> string) (fuel : nat)
    (libs : nat -> library) (FLAGS : flags) (w w' : world)
    (out : outcome string) (log : list call) :
  create_or_update_scheduled_query (service assign_name) fuel libs FLAGS w
    = Some (out, w', log) ->
  transfer_configs w' = transfer_configs w \/
  (exists p text,
     find (named (table FLAGS)) (transfer_configs w) = None /\
     transfer_configs w' =
       (transfer_configs w ++
        [set_name (build_transfer_config (table FLAGS) text)
           (assign_name p (transfer_configs w))])%list) \/
  (exists text first,
     find (named (table FLAGS)) (transfer_configs w) = Some first /\
     transfer_configs w' =
       update_stored
         (set_name (build_transfer_config (table FLAGS) text) (name first))
         ["params"] (transfer_configs w)).
Proof.
  intros H.
  destruct (get_bq_client fuel libs) as [[[c p] | e | v] |] eqn:Hget.
  - destruct (read_file (query_file FLAGS) (files w)) as [text |] eqn:Hread.
    + destruct (find (named (table FLAGS)) (transfer_configs w))
        as [first |] eqn:Hfind.
      * rewrite (service_update_path assign_name fuel libs c p FLAGS w text
                   first Hget Hread Hfind) in H.
        injection H as _ <- _. right. right. exists text, first. auto.
      * rewrite (service_create_path assign_name fuel libs c p FLAGS w text
                   Hget Hread Hfind) in H.
        injection H as _ <- _. right. left. exists p, text. auto.
    + rewrite (create_or_update_runs_reconcile _ fuel libs c p FLAGS w Hget)
        in H.
      unfold reconcile in H. simpl in H. rewrite Hread in H.
      injection H as _ <- _. left. reflexivity.
  - unfold create_or_update_scheduled_query in H. rewrite Hget in H.
    injection H as _ <- _. left. reflexivity.
  - unfold create_or_update_scheduled_query in H. rewrite Hget in H.
    injection H as _ <- _. left. reflexivity.
  - unfold create_or_update_scheduled_query in H. rewrite Hget in H.
    discriminate.
Qed.

(** With fresh names, a run keeps resource names unique. *)
Lemma well_formed_invariant
    (assign_name : string -> list TransferConfig -> string) (fuel : nat)
    (libs : nat -> library) (FLAGS : flags) (w w' : world)
    (out : outcome string) (log : list call) :
  fresh_names assign_name -> well_formed w ->
  create_or_update_scheduled_query (service assign_name) fuel libs FLAGS w
    = Some (out, w', log) ->
  well_formed w'.
Proof.
  intros Hfresh Hwf Hrun. unfold well_formed in *.
  destruct (service_run_cases assign_name fuel libs FLAGS w w' out log Hrun)
    as [-> | [(p & text & _ & ->) | (text & first & _ & ->)]].
  - exact Hwf.
  - apply well_formed_create; [exact Hwf | apply Hfresh].
  - rewrite update_stored_names. exact Hwf.
Qed.

(** C7. Against the transfer service, where resource names identify
    configurations: a run leaves every stored configuration whose display
    name differs from the reconciled table name exactly as it was, and adds
    none. And when the service assigns fresh names, reconciling two
    distinct tables [A] and [B] that have no configuration yet stores two
    configurations with distinct resource names, one per table; reconciling
    [A] again (with whatever query text) rewrites the [params] of [A]'s
    configuration and leaves [B]'s as it was. *)
Theorem reconcile_leaves_other_tables_alone :
  (forall (assign_name : string -> list TransferConfig -> string)
          (fuel : nat) (libs : nat -> library) (FLAGS : flags)
          (w w' : world) (out : outcome string) (log : list call),
     well_formed w ->
     create_or_update_scheduled_query (service assign_name) fuel libs
       FLAGS w = Some (out, w', log) ->
     filter (fun cfg => negb (named (table FLAGS) cfg)) (transfer_configs w')
     = filter (fun cfg => negb (named (table FLAGS) cfg))
         (transfer_configs w)) /\
  (forall (assign_name : string -> list TransferConfig -> string)
          (fuel1 fuel2 fuel3 : nat) (libs1 libs2 libs3 : nat -> library)
          (c1 c2 c3 : Client) (p : string) (FA FB FA' : flags) (w : world)
          (ta tb ta' : string),
     fresh_names assign_name ->
     well_formed w ->
     get_bq_client fuel1 libs1 = Some (Returns (c1, p)) ->
     get_bq_client fuel2 libs2 = Some (Returns (c2, p)) ->
     get_bq_client fuel3 libs3 = Some (Returns (c3, p)) ->
     table FA <> table FB ->
     table FA' = table FA ->
     read_file (query_file FA) (files w) = Some ta ->
     read_file (query_file FB) (files w) = Some tb ->
     read_file (query_file FA') (files w) = Some ta' ->
     count_named (table FA) (transfer_configs w) = 0 ->
     count_named (table FB) (transfer_configs w) = 0 ->
     exists a b w1 w2 w3 log1 log2 log3,
       create_or_update_scheduled_query (service assign_name) fuel1 libs1
         FA w =
         Some (Returns ("Created scheduled query '" ++ name a ++ "'"),
               w1, log1) /\
       create_or_update_scheduled_query (service assign_name) fuel2 libs2
         FB w1 =
         Some (Returns ("Created scheduled query '" ++ name b ++ "'"),
               w2, log2) /\
       transfer_configs w2 = (transfer_configs w ++ [a; b])%list /\
       display_name a = table FA /\
       display_name b = table FB /\
       name a <> name b /\
       well_formed w2 /\
       create_or_update_scheduled_query (service assign_name) fuel3 libs3
         FA' w2 =
         Some (Returns ("Updated scheduled query '" ++ name a ++ "'"),
               w3, log3) /\
       transfer_configs w3 =
         (transfer_configs w ++
          [set_params a (params (build_transfer_config (table FA) ta')); b])
         %list).
Proof.
  split.
  - intros assign_name fuel libs FLAGS w w' out log Hwf Hrun.
    destruct (service_run_cases assign_name fuel libs FLAGS w w' out log
                Hrun)
      as [-> | [(p & text & _ & ->) | (text & first & Hfind & ->)]].
    + reflexivity.
    + rewrite filter_app. simpl. unfold named at 2. simpl.
      rewrite String.eqb_refl. simpl. apply app_nil_r.
    + destruct (find_named_split _ _ _ Hfind)
        as (pre & post & Hl & Hd & _).
      unfold well_formed in Hwf. rewrite Hl in Hwf |- *.
      rewrite (update_stored_unique
                 (set_name (build_transfer_config (table FLAGS) text)
                    (name first))
                 first ["params"] pre post Hwf eq_refl).
      assert (Hn : named (table FLAGS) first = true).
      { unfold named. rewrite Hd. apply String.eqb_refl. }
      rewrite apply_mask_params, !filter_app. cbn [filter].
      change (named (table FLAGS) (set_params first _))
        with (named (table FLAGS) first).
      rewrite Hn. reflexivity.
  - intros assign_name fuel1 fuel2 fuel3 libs1 libs2 libs3 c1 c2 c3 p
           FA FB FA' w ta tb ta' Hfresh Hwf Hget1 Hget2 Hget3 HAB HA'
           HreadA HreadB HreadA' HcountA HcountB.
    pose proof (proj1 (count_named_zero_find _ _) HcountA) as HfindA.
    pose proof (proj1 (count_named_zero_find _ _) HcountB) as HfindB.
    set (l := transfer_configs w) in *.
    set (a := set_name (build_transfer_config (table FA) ta)
                (assign_name p l)).
    set (b := set_name (build_transfer_config (table FB) tb)
                (assign_name p (l ++ [a])%list)).
    set (w1 := set_transfer_configs w (l ++ [a])%list).
    set (w2 := set_transfer_configs w1 ((l ++ [a]) ++ [b])%list).
    assert (HfindB1 : find (named (table FB)) (transfer_configs w1) = None).
    { simpl. rewrite (find_app_none _ _ _ HfindB). simpl.
      unfold named. simpl.
      destruct (String.eqb_spec (table FA) (table FB)) as [E | _];
        [contradiction | reflexivity]. }
    assert (Hwf1 : NoDup (map name (l ++ [a])%list)).
    { apply well_formed_create; [exact Hwf | apply Hfresh]. }
    assert (Hwf2 : NoDup (map name ((l ++ [a]) ++ [b])%list)).
    { apply well_formed_create; [exact Hwf1 | apply Hfresh]. }
    assert (HfindA2 : find (named (table FA')) (transfer_configs w2)
                      = Some a).
    { simpl. rewrite HA', <- app_assoc.
      rewrite (find_app_none _ _ _ HfindA). simpl.
      unfold named. simpl. rewrite String.eqb_refl. reflexivity. }
    exists a, b, w1, w2. do 4 eexists.
    split.
    { apply (service_create_path assign_name fuel1 libs1 c1 p FA w ta
               Hget1 HreadA HfindA). }
    split.
    { apply (service_create_path assign_name fuel2 libs2 c2 p FB w1 tb
               Hget2 HreadB HfindB1). }
    split. { simpl. rewrite <- app_assoc. reflexivity. }
    split; [reflexivity |]. split; [reflexivity |].
    split.
    { intros E. apply (Hfresh p (l ++ [a])%list).
      change (assign_name p (l ++ [a])%list) with (name b).
      rewrite <- E. apply in_map. apply in_or_app. right. left. reflexivity. }
    split; [exact Hwf2 |].
    split.
    { apply (service_update_path assign_name fuel3 libs3 c3 p FA' w2 ta'
               a Hget3 HreadA' HfindA2). }
    simpl transfer_configs at 1.
    assert (Hshape : ((l ++ [a]) ++ [b])%list = (l ++ a :: [b])%list).
    { rewrite <- app_assoc. reflexivity. }
    rewrite Hshape in Hwf2 |- *.
    change (assign_name p l) with (name a).
    rewrite (update_stored_unique
               (set_name (build_transfer_config (table FA') ta') (name a))
               a ["params"] l [b] Hwf2 eq_refl).
    rewrite HA'. reflexivity.
Qed.

(** ** A naming policy that is fresh *)

Lemma string_length_append (s1 s2 : string) :
  String.length (s1 ++ s2) = String.length s1 + String.length s2.
Proof.
  induction s1 as [| a s1 IH]; simpl; [reflexivity | rewrite IH; reflexivity].
Qed.

Lemma zeros_length (n : nat) : String.length (zeros n) = n.
Proof. induction n as [| n IH]; simpl; [reflexivity | rewrite IH; reflexivity]. Qed.

Lemma total_length_bound (stored : list TransferConfig) (c : TransferConfig) :
  In c stored -> String.length (name c) <= total_length stored.
Proof.
  induction stored as [| c' stored IH]; simpl; intros Hin; [contradiction |].
  destruct Hin as [-> | Hin]; [lia |]. specialize (IH Hin). lia.
Qed.

Lemma longer_name_fresh : fresh_names longer_name.
Proof.
  intros p stored Hin. apply in_map_iff in Hin.
  destruct Hin as (c & Hname & Hin).
  apply total_length_bound in Hin.
  apply (f_equal String.length) in Hname. unfold longer_name in Hname.
  rewrite !string_length_append, zeros_length in Hname. lia.
Qed.

Lemma reconcile_leaves_other_tables_alone_witness :
  exists a b w1 w2 w3 log1 log2 log3,
    create_or_update_scheduled_query (service longer_name) 1
      (fun _ => working_library) deployments_flags empty_world =
      Some (Returns ("Created scheduled query '" ++ name a ++ "'"),
            w1, log1) /\
    create_or_update_scheduled_query (service longer_name) 1
      (fun _ => working_library) changes_flags w1 =
      Some (Returns ("Created scheduled query '" ++ name b ++ "'"),
            w2, log2) /\
    transfer_configs w2 = (transfer_configs empty_world ++ [a; b])%list /\
    display_name a = "deployments" /\
    display_name b = "changes" /\
    name a <> name b /\
    well_formed w2 /\
    create_or_update_scheduled_query (service longer_name) 3
      (after_two_failures working_library) deployments_flags w2 =
      Some (Returns ("Updated scheduled query '" ++ name a ++ "'"),
            w3, log3) /\
    transfer_configs w3 =
      (transfer_configs empty_world ++
       [set_params a (params (build_transfer_config "deployments" "SELECT 1"));
        b])%list.
Proof.
  apply (proj2 reconcile_leaves_other_tables_alone longer_name 1 1 3
           (fun _ => working_library) (fun _ => working_library)
           (after_two_failures working_library)
           (mk_Client "token") (mk_Client "token") (mk_Client "token")
           "projects/four-metrics" deployments_flags changes_flags
           deployments_flags empty_world "SELECT 1" "SELECT 2" "SELECT 1"
           longer_name_fresh).
  - constructor.
  - reflexivity.
  - reflexivity.
  - reflexivity.
  - discriminate.
  - reflexivity.
  - reflexivity.
  - reflexivity.
  - reflexivity.
  - reflexivity.
  - reflexivity.
Defined.

(** ** The scenario of the specification *)

(** Table ["deployments"], a query file holding ["SELECT 1"], no stored
    configuration: the run creates one. A second run for the same table
    with another query text updates that resource: its [params.query] is
    the new text and its schedule is as created. *)
Example deployments_scenario :
  exists w1 w2 log1 log2,
    create_or_update_scheduled_query (service longer_name) 1
      (fun _ => working_library) deployments_flags empty_world =
      Some (Returns
              "Created scheduled query 'projects/four-metrics/transferConfigs/0'",
            w1, log1) /\
    create_or_update_scheduled_query (service longer_name) 1
      (fun _ => working_library)
      {| table := "deployments"; query_file := "queries/changes.sql";
         access_token := "" |} w1 =
      Some (Returns
              "Updated scheduled query 'projects/four-metrics/transferConfigs/0'",
            w2, log2) /\
    transfer_configs w2 =
      [set_name (build_transfer_config "deployments" "SELECT 2")
         "projects/four-metrics/transferConfigs/0"] /\
    map schedule (transfer_configs w2) = map schedule (transfer_configs w1).
Proof.
  do 4 eexists. split; [reflexivity |]. split; [reflexivity |].
  split; reflexivity.
Qed.

(** * Further properties of the retry loop *)

(** A pass that raises an [Exception] is caught: [parent] stays as it was,
    [client] is rebound if the pass had constructed a client, and [retry]
    is cleared unless the text carries the service-account message. *)
Lemma loop_body_caught (lib : library) (l : locals) (e : exn) :
  raised lib = Some e -> isinstance_Exception e = true ->
  exists l', loop_body lib l = inl l' /\
    retry l' =
      (if contains SERVICE_ACCOUNT_NOT_FOUND (str e) then retry l else false) /\
    parent l' = parent l /\
    client l' = match constructed_client lib with
                | Some c => Some c
                | None => client l
                end.
Proof.
  unfold raised, loop_body, constructed_client, try_block.
  destruct (from_service_account_file lib TOKEN_FILE) as [e1 | v]; simpl.
  - intros [= ->] He. rewrite He.
    destruct (contains SERVICE_ACCOUNT_NOT_FOUND (str e)); simpl;
      eexists; eauto.
  - destruct (DataTransferServiceClient lib v) as [e2 | c]; simpl.
    + intros [= ->] He. rewrite He.
      destruct (contains SERVICE_ACCOUNT_NOT_FOUND (str e)); simpl;
        eexists; eauto.
    + destruct (project_path lib c PROJECT_ID) as [e3 | p]; simpl.
      * intros [= ->] He. rewrite He.
        destruct (contains SERVICE_ACCOUNT_NOT_FOUND (str e)); simpl;
          eexists; eauto.
      * discriminate.
Qed.

Lemma transient_raised (lib : library) :
  transient lib = true ->
  exists e, raised lib = Some e /\ isinstance_Exception e = true /\
            contains SERVICE_ACCOUNT_NOT_FOUND (str e) = true.
Proof.
  unfold transient. destruct (raised lib) as [e |]; [| discriminate].
  intros H. apply andb_true_iff in H. exists e. tauto.
Qed.

(** [n] transient failures in a row, with what they leave in [client]:
    the client of the last of these passes that constructed one, if any. *)
Lemma while_retry_skip_client (libs : nat -> library) :
  forall n k l,
    retry l = true ->
    (forall i, i < n -> transient (libs (k + i)) = true) ->
    exists l', retry l' = true /\ parent l' = parent l /\
      (client l' <> None <->
       client l <> None \/
       exists i, i < n /\ constructed_client (libs (k + i)) <> None) /\
      forall fuel,
        while_retry (n + fuel) libs k l = while_retry fuel libs (k + n) l'.
Proof.
  induction n as [| n IH]; intros k l Hr Ht.
  - exists l. repeat split; trivial.
    + intros H. left. exact H.
    + intros [H | (i & Hi & _)]; [exact H | lia].
    + intros fuel. rewrite Nat.add_0_r. reflexivity.
  - assert (Hk : transient (libs k) = true).
    { specialize (Ht 0). rewrite Nat.add_0_r in Ht. apply Ht. lia. }
    destruct (transient_raised _ Hk) as (e & He & Hexc & Htext).
    destruct (loop_body_caught (libs k) l e He Hexc)
      as (l1 & Hb & Hr1 & Hp1 & Hc1).
    rewrite Htext, Hr in Hr1.
    destruct (IH (S k) l1 Hr1) as (l' & Hr' & Hp' & Hc' & Hrun).
    { intros i Hi. specialize (Ht (S i)).
      rewrite Nat.add_succ_r in Ht. apply Ht. lia. }
    exists l'. split; [exact Hr' |]. split; [congruence |]. split.
    + rewrite Hc', Hc1. split.
      * intros [H | (i & Hi & H)].
        -- destruct (constructed_client (libs k)) eqn:Ek.
           ++ right. exists 0. rewrite Nat.add_0_r, Ek.
              split; [lia | discriminate].
           ++ left. exact H.
        -- right. exists (S i). rewrite Nat.add_succ_r.
           split; [lia | exact H].
      * intros [H | (i & Hi & H)].
        -- left. destruct (constructed_client (libs k));
             [discriminate | exact H].
        -- destruct i as [| i].
           ++ left. rewrite Nat.add_0_r in H.
              destruct (constructed_client (libs k));
                [discriminate | contradiction].
           ++ right. exists i. rewrite Nat.add_succ_r in H.
              split; [lia | exact H].
    + intros fuel. simpl. rewrite Hr, Hb, Hrun.
      rewrite Nat.add_succ_r. reflexivity.
Qed.

(** A loop that has ended went through some transient failures and then
    one pass that was not one. *)
Lemma while_retry_first_stop (libs : nat -> library) :
  forall fuel k l r,
    retry l = true -> while_retry fuel libs k l = Some r ->
    exists n, n < fuel /\
      (forall i, i < n -> transient (libs (k + i)) = true) /\
      transient (libs (k + n)) = false.
Proof.
  induction fuel as [| fuel IH]; intros k l r Hr H; simpl in H;
    rewrite Hr in H; [discriminate |].
  destruct (transient (libs k)) eqn:Hk.
  - destruct (loop_body_transient (libs k) l Hk) as (l' & Hb & Hr' & _).
    rewrite Hb in H.
    destruct (IH (S k) l' r) as (n & Hn & Hpre & Hstop);
      [congruence | assumption |].
    exists (S n). split; [lia |]. split.
    + intros [| i] Hi.
      * rewrite Nat.add_0_r. exact Hk.
      * rewrite Nat.add_succ_r. apply Hpre. lia.
    + rewrite Nat.add_succ_r. exact Hstop.
  - exists 0. rewrite Nat.add_0_r. split; [lia |]. split; [| exact Hk].
    intros i Hi. lia.
Qed.

(** The passes before the first that is not a transient failure are
    determined by the libraries. *)
Lemma first_stop_unique (libs : nat -> library) (n m : nat) :
  (forall i, i < n -> transient (libs i) = true) ->
  transient (libs n) = false ->
  (forall i, i < m -> transient (libs i) = true) ->
  transient (libs m) = false ->
  n = m.
Proof.
  intros Hn Hn' Hm Hm'.
  destruct (Nat.lt_trichotomy n m) as [H | [H | H]].
  - rewrite (Hm n H) in Hn'. discriminate.
  - exact H.
  - rewrite (Hn m H) in Hm'. discriminate.
Qed.

(** What [get_bq_client] does at the first pass that is not a transient
    failure: it returns what the pass built, or lets a non-[Exception]
    escape, or swallows the error and fails on the [return] statement, on
    [parent] if some pass so far has constructed a client and on [client]
    otherwise. *)
Lemma get_bq_client_first_stop_cases (libs : nat -> library) (n fuel : nat) :
  (forall i, i < n -> transient (libs i) = true) ->
  transient (libs n) = false ->
  n < fuel ->
  (exists c p, built (libs n) = Some (c, p) /\
     get_bq_client fuel libs = Some (Returns (c, p))) \/
  (exists e, raised (libs n) = Some e /\ isinstance_Exception e = false /\
     get_bq_client fuel libs = Some (Propagates e)) \/
  (exists e, raised (libs n) = Some e /\ isinstance_Exception e = true /\
     contains SERVICE_ACCOUNT_NOT_FOUND (str e) = false /\
     (((exists i, i <= n /\ constructed_client (libs i) <> None) /\
       get_bq_client fuel libs = Some (UnboundLocalError "parent")) \/
      ((forall i, i <= n -> constructed_client (libs i) = None) /\
       get_bq_client fuel libs = Some (UnboundLocalError "client")))).
Proof.
  intros Hpre Hstop Hfuel.
  destruct (while_retry_skip_client libs n 0 initial_locals eq_refl Hpre)
    as (l0 & Hr0 & Hp0 & Hc0 & Hskip).
  simpl in Hp0, Hc0, Hskip.
  unfold get_bq_client. replace fuel with (n + S (fuel - S n)) by lia.
  rewrite Hskip. simpl. rewrite Hr0.
  destruct (raised (libs n)) as [e |] eqn:Hraised.
  - destruct (isinstance_Exception e) eqn:Hexc.
    + pose proof (raised_transient _ _ Hraised) as Ht.
      rewrite Hstop, Hexc in Ht. simpl in Ht. symmetry in Ht.
      destruct (loop_body_caught (libs n) l0 e Hraised Hexc)
        as (l1 & Hb & Hr1 & Hp1 & Hc1).
      rewrite Ht in Hr1. rewrite Hb.
      rewrite while_retry_stopped by assumption.
      right. right. exists e. repeat split; trivial.
      unfold return_client_parent. rewrite Hp1, Hp0, Hc1.
      destruct (constructed_client (libs n)) as [c |] eqn:Ec.
      * left. split; [| reflexivity].
        exists n. rewrite Ec. split; [lia | discriminate].
      * destruct (client l0) as [c0 |] eqn:Ec0.
        -- left. split; [| reflexivity].
           destruct (proj1 Hc0) as [H | (i & Hi & H)]; [discriminate | |].
           ++ exfalso. apply H. reflexivity.
           ++ exists i. split; [lia | exact H].
        -- right. split; [| reflexivity].
           intros i Hi. destruct (Nat.eq_dec i n) as [-> | Hne];
             [exact Ec |].
           destruct (constructed_client (libs i)) eqn:Ei; [| reflexivity].
           exfalso. assert (Hsome : @None Client <> None).
           { apply Hc0. right. exists i. rewrite Ei.
             split; [lia | discriminate]. }
           apply Hsome. reflexivity.
    + destruct (loop_body_stops (libs n) l0 Hstop)
        as [(e' & Hb & He' & _)
           | (l1 & Hb & _ & [(e' & He' & Hexc' & _) | (c & p & Hb' & _)])].
      * rewrite Hb. right. left. exists e. repeat split; congruence.
      * congruence.
      * destruct (built_not_raised _ _ _ Hb') as [Hnone _]. congruence.
  - destruct (loop_body_stops (libs n) l0 Hstop)
      as [(e' & _ & He' & _)
         | (l1 & Hb & Hr1 & [(e' & He' & _) | (c & p & Hb' & Hc' & Hp')])];
      try congruence.
    rewrite Hb. rewrite while_retry_stopped by assumption.
    left. exists c, p. split; [exact Hb' |].
    unfold return_client_parent. rewrite Hc', Hp'. reflexivity.
Qed.

(** X1. [get_bq_client] returns a client and a parent path exactly when,
    after transient failures only, some pass within the fuel has all three
    calls return: the pair is the one built by that pass, never a client
    left over from an earlier pass. *)
Theorem get_bq_client_returns_iff :
  forall (libs : nat -> library) (fuel : nat) (c : Client) (p : string),
    get_bq_client fuel libs = Some (Returns (c, p)) <->
    exists n, n < fuel /\
      (forall i, i < n -> transient (libs i) = true) /\
      built (libs n) = Some (c, p).
Proof.
  intros libs fuel c p. split.
  - intros H.
    destruct (proj1 (get_bq_client_some_iff fuel libs)) as [r Hr];
      [eexists; exact H |].
    destruct (while_retry_first_stop libs fuel 0 initial_locals r eq_refl Hr)
      as (n & Hn & Hpre & Hstop).
    simpl in Hpre, Hstop. exists n. repeat split; trivial.
    destruct (get_bq_client_first_stop_cases libs n fuel Hpre Hstop Hn)
      as [(c' & p' & Hb & Hg)
         | [(e & _ & _ & Hg)
           | (e & _ & _ & _ & [[_ Hg] | [_ Hg]])]];
      rewrite Hg in H; try discriminate.
    injection H as <- <-. exact Hb.
  - intros (n & Hn & Hpre & Hb).
    destruct (built_not_raised _ _ _ Hb) as [Hnone Hstop].
    destruct (get_bq_client_first_stop_cases libs n fuel Hpre Hstop Hn)
      as [(c' & p' & Hb' & Hg)
         | [(e & He & _) | (e & He & _)]]; try congruence.
Qed.

(** X2. An exception that is not an instance of [Exception] (a keyboard
    interrupt, say) is not caught by the loop: [get_bq_client] lets an
    exception [e] escape exactly when, after transient failures only, a
    pass within the fuel raises [e] and [e] is not an [Exception], whatever
    its text. *)
Theorem get_bq_client_propagates_iff :
  forall (libs : nat -> library) (fuel : nat) (e : exn),
    get_bq_client fuel libs = Some (Propagates e) <->
    exists n, n < fuel /\
      (forall i, i < n -> transient (libs i) = true) /\
      raised (libs n) = Some e /\ isinstance_Exception e = false.
Proof.
  intros libs fuel e. split.
  - intros H.
    destruct (proj1 (get_bq_client_some_iff fuel libs)) as [r Hr];
      [eexists; exact H |].
    destruct (while_retry_first_stop libs fuel 0 initial_locals r eq_refl Hr)
      as (n & Hn & Hpre & Hstop).
    simpl in Hpre, Hstop. exists n. split; [exact Hn |].
    split; [exact Hpre |].
    destruct (get_bq_client_first_stop_cases libs n fuel Hpre Hstop Hn)
      as [(c' & p' & Hb & Hg)
         | [(e' & He' & Hexc & Hg)
           | (e' & _ & _ & _ & [[_ Hg] | [_ Hg]])]];
      rewrite Hg in H; try discriminate.
    injection H as <-. split; assumption.
  - intros (n & Hn & Hpre & Hraised & Hexc).
    assert (Hstop : transient (libs n) = false).
    { rewrite (raised_transient _ _ Hraised), Hexc. reflexivity. }
    destruct (get_bq_client_first_stop_cases libs n fuel Hpre Hstop Hn)
      as [(c' & p' & Hb & _)
         | [(e' & He' & _ & Hg) | (e' & He' & Hexc' & _)]].
    + destruct (built_not_raised _ _ _ Hb) as [Hnone _]. congruence.
    + congruence.
    + congruence.
Qed.

(** X3. When the loop ends on a swallowed error, which variable the
    [return] statement fails on depends on the earlier passes too: a
    client constructed in any pass so far, even one that then failed with
    the transient error, stays bound, and the [UnboundLocalError] is then
    about [parent]; it is about [client] only if no pass has constructed
    one. *)
Theorem get_bq_client_unbound_variable :
  forall (libs : nat -> library) (n fuel : nat) (e : exn),
    (forall i, i < n -> transient (libs i) = true) ->
    raised (libs n) = Some e ->
    isinstance_Exception e = true ->
    contains SERVICE_ACCOUNT_NOT_FOUND (str e) = false ->
    n < fuel ->
    (get_bq_client fuel libs = Some (UnboundLocalError "parent") <->
     exists i, i <= n /\ constructed_client (libs i) <> None) /\
    (get_bq_client fuel libs = Some (UnboundLocalError "client") <->
     forall i, i <= n -> constructed_client (libs i) = None).
Proof.
  intros libs n fuel e Hpre Hraised Hexc Htext Hfuel.
  assert (Hstop : transient (libs n) = false).
  { rewrite (raised_transient _ _ Hraised), Hexc, Htext. reflexivity. }
  destruct (get_bq_client_first_stop_cases libs n fuel Hpre Hstop Hfuel)
    as [(c' & p' & Hb & _)
       | [(e' & He' & Hexc' & _)
         | (e' & _ & _ & _ & [[Hsome Hg] | [Hnone Hg]])]].
  - destruct (built_not_raised _ _ _ Hb) as [Hnone _]. congruence.
  - congruence.
  - rewrite Hg. split; split; trivial; try discriminate.
    intros Hnone. destruct Hsome as (i & Hi & H).
    exfalso. exact (H (Hnone i Hi)).
  - rewrite Hg. split; split; trivial; try discriminate.
    intros (i & Hi & H). exfalso. exact (H (Hnone i Hi)).
Qed.

Lemma half_provisioned_then_missing_transient :
  forall i, i < 1 -> transient (half_provisioned_then_missing i) = true.
Proof. intros [| i] Hi; [reflexivity | lia]. Qed.

Lemma get_bq_client_unbound_variable_witness :
  (get_bq_client 2 half_provisioned_then_missing
     = Some (UnboundLocalError "parent") <->
   exists i, i <= 1 /\
     constructed_client (half_provisioned_then_missing i) <> None) /\
  (get_bq_client 2 half_provisioned_then_missing
     = Some (UnboundLocalError "client") <->
   forall i, i <= 1 ->
     constructed_client (half_provisioned_then_missing i) = None).
Proof.
  apply (get_bq_client_unbound_variable half_provisioned_then_missing 1 2
           FileNotFoundError half_provisioned_then_missing_transient
           eq_refl eq_refl eq_refl).
  apply le_n.
Defined.

(** The client constructed by the first pass outlives its failure: the
    missing key file of the second pass is reported as an unbound
    [parent]. *)
Example get_bq_client_stale_client :
  get_bq_client 2 half_provisioned_then_missing
    = Some (UnboundLocalError "parent").
Proof. reflexivity. Qed.

(** * Further properties of the reconciler *)







(** * noxfile.py *)

Lemma string_app_assoc (a b c : string) : (a ++ b) ++ c = a ++ b ++ c.
Proof. induction a as [| x a IH]; simpl; [reflexivity | rewrite IH; reflexivity]. Qed.

Lemma contains_append (needle s rest : string) :
  contains needle s = true -> contains needle (s ++ rest) = true.
Proof.
  rewrite !contains_spec. intros (pre & post & ->).
  exists pre, (post ++ rest). rewrite !string_app_assoc. reflexivity.
Qed.

(** [endswith] is Python's [str.endswith]. *)
Lemma endswith_spec (suffix : string) :
  forall s, endswith s suffix = true <-> exists pre, s = pre ++ suffix.
Proof.
  induction s as [| a s IH]; cbn [endswith].
  - rewrite orb_false_r, String.eqb_eq. split.
    + intros <-. exists "". reflexivity.
    + intros [pre H]. destruct pre; [exact H | discriminate].
  - rewrite orb_true_iff, String.eqb_eq, IH. split.
    + intros [<- | [pre ->]].
      * exists "". reflexivity.
      * exists (String a pre). reflexivity.
    + intros [[| b pre] H].
      * left. exact H.
      * right. exists pre. injection H as _ H. exact H.
Qed.

Lemma any_with_suffix_spec (suffix : string) (files : list string) :
  any_with_suffix suffix files = true <->
  exists f pre, In f files /\ f = pre ++ suffix /\ f <> "".
Proof.
  unfold any_with_suffix. rewrite existsb_exists. split.
  - intros (f & Hin & H). apply andb_true_iff in H. destruct H as [He Hn].
    apply endswith_spec in He. destruct He as [pre He].
    exists f, pre. repeat split; trivial.
    apply String.eqb_neq. apply negb_true_iff. exact Hn.
  - intros (f & pre & Hin & He & Hn). exists f. split; [exact Hin |].
    apply andb_true_iff. split.
    + apply endswith_spec. exists pre. exact He.
    + apply negb_true_iff. apply String.eqb_neq. exact Hn.
Qed.

Section WalkProperties.

Variable join : string -> string -> string.
Variable isalpha : Ascii.ascii -> bool.
Variable suffix : string.

(** Nothing at or below a path that contains ["./."] is yielded, when
    joining a name to a path extends the path. *)
Lemma collect_dirs_below_dot (recurse_further : bool) :
  (forall p s, exists rest, join p s = p ++ rest) ->
  (forall t parent_path,
     contains "./." parent_path = true ->
     _collect_dirs join isalpha suffix recurse_further parent_path t
       = ([], None)) /\
  (forall f parent_path keep,
     contains "./." parent_path = true ->
     walk_subdirs join isalpha suffix recurse_further parent_path keep f
       = ([], None)).
Proof.
  intros Hjoin. apply tree_forest_mutind.
  - intros files subdirs IH parent_path Hdot. simpl. rewrite Hdot.
    apply IH. exact Hdot.
  - intros parent_path keep _. reflexivity.
  - intros s t IHt rest IHrest parent_path keep Hdot. simpl.
    rewrite (IHrest parent_path keep Hdot).
    rewrite (IHt (join parent_path s)).
    + destruct (keep s); reflexivity.
    + destruct (Hjoin parent_path s) as [tail ->].
      apply contains_append. exact Hdot.
Qed.

(** Every yielded path is the path of a walked directory that holds a
    file with the suffix, and has no ["./."] in it. *)
Lemma collect_dirs_sound (recurse_further : bool) :
  (forall t parent_path p,
     In p (fst (_collect_dirs join isalpha suffix recurse_further
                  parent_path t)) ->
     exists files,
       In (p, files) (os_walk join parent_path t) /\
       any_with_suffix suffix files = true /\
       contains "./." p = false) /\
  (forall f parent_path keep p,
     In p (fst (walk_subdirs join isalpha suffix recurse_further
                  parent_path keep f)) ->
     exists files,
       In (p, files) (os_walk_subdirs join parent_path f) /\
       any_with_suffix suffix files = true /\
       contains "./." p = false).
Proof.
  apply tree_forest_mutind.
  - intros files subdirs IH parent_path p. simpl.
    destruct (contains "./." parent_path) eqn:Hdot.
    { intros Hin. destruct (IH _ _ _ Hin) as (fs & H & Hrest).
      exists fs. split; [right; exact H | exact Hrest]. }
    destruct (any_with_suffix suffix files) eqn:Hany.
    + destruct recurse_further.
      * destruct (walk_subdirs join isalpha suffix true parent_path
                    (fun _ => true) subdirs) as [ys e] eqn:Hw.
        simpl. intros [<- | Hin].
        -- exists files. repeat split; trivial. left. reflexivity.
        -- specialize (IH parent_path (fun _ => true) p).
           rewrite Hw in IH. destruct (IH Hin) as (fs & H & Hrest).
           exists fs. split; [right; exact H | exact Hrest].
      * simpl. intros [<- | []].
        exists files. repeat split; trivial. left. reflexivity.
    + destruct (has_empty_name subdirs).
      * simpl. intros [].
      * intros Hin. destruct (IH _ _ _ Hin) as (fs & H & Hrest).
        exists fs. split; [right; exact H | exact Hrest].
  - intros parent_path keep p []. 
  - intros s t IHt rest IHrest parent_path keep p. simpl.
    destruct (keep s).
    + destruct (_collect_dirs join isalpha suffix recurse_further
                  (join parent_path s) t) as [ys [e |]] eqn:Hc.
      * simpl. intros Hin. specialize (IHt (join parent_path s) p).
        rewrite Hc in IHt. destruct (IHt Hin) as (fs & H & Hrest).
        exists fs. split; [apply in_or_app; left; exact H | exact Hrest].
      * destruct (walk_subdirs join isalpha suffix recurse_further
                    parent_path keep rest) as [ys' e'] eqn:Hw.
        simpl. intros Hin. apply in_app_or in Hin. destruct Hin as [Hin | Hin].
        -- specialize (IHt (join parent_path s) p).
           rewrite Hc in IHt. destruct (IHt Hin) as (fs & H & Hrest).
           exists fs. split; [apply in_or_app; left; exact H | exact Hrest].
        -- specialize (IHrest parent_path keep p).
           rewrite Hw in IHrest. destruct (IHrest Hin) as (fs & H & Hrest).
           exists fs. split; [apply in_or_app; right; exact H | exact Hrest].
    + intros Hin. destruct (IHrest _ _ _ Hin) as (fs & H & Hrest).
      exists fs. split; [apply in_or_app; right; exact H | exact Hrest].
Qed.

End WalkProperties.

Section WalkModes.

Variable join : string -> string -> string.
Variable isalpha : Ascii.ascii -> bool.
Variable suffix : string.

(** Walking on below the test folders finds every folder that stopping at
    them finds, provided the longer walk runs to its end. *)
Lemma collect_dirs_recurse_further :
  (forall t parent_path,
     snd (_collect_dirs join isalpha suffix true parent_path t) = None ->
     snd (_collect_dirs join isalpha suffix false parent_path t) = None /\
     incl (fst (_collect_dirs join isalpha suffix false parent_path t))
          (fst (_collect_dirs join isalpha suffix true parent_path t))) /\
  (forall f parent_path keep,
     snd (walk_subdirs join isalpha suffix true parent_path keep f) = None ->
     snd (walk_subdirs join isalpha suffix false parent_path keep f) = None /\
     incl (fst (walk_subdirs join isalpha suffix false parent_path keep f))
          (fst (walk_subdirs join isalpha suffix true parent_path keep f))).
Proof.
  apply tree_forest_mutind.
  - intros files subdirs IH parent_path. simpl.
    destruct (contains "./." parent_path); [apply IH |].
    destruct (any_with_suffix suffix files).
    + destruct (walk_subdirs join isalpha suffix true parent_path
                  (fun _ => true) subdirs) as [ys e].
      simpl. intros _. split; [reflexivity |].
      intros x [<- | []]. left. reflexivity.
    + destruct (has_empty_name subdirs); [discriminate | apply IH].
  - intros parent_path keep _. split; [reflexivity | apply incl_refl].
  - intros s t IHt rest IHrest parent_path keep. simpl.
    destruct (keep s); [| apply IHrest].
    specialize (IHt (join parent_path s)).
    specialize (IHrest parent_path keep).
    destruct (_collect_dirs join isalpha suffix true (join parent_path s) t)
      as [ys [e |]]; [discriminate |].
    destruct (_collect_dirs join isalpha suffix false (join parent_path s) t)
      as [zs ez].
    destruct (walk_subdirs join isalpha suffix true parent_path keep rest)
      as [ys' e'].
    destruct (walk_subdirs join isalpha suffix false parent_path keep rest)
      as [zs' ez'].
    simpl in *. intros He'.
    destruct (IHt eq_refl) as [-> Hincl].
    destruct (IHrest He') as [-> Hincl'].
    simpl. split; [reflexivity |].
    apply incl_app.
    + apply incl_appl. exact Hincl.
    + apply incl_appr. exact Hincl'.
Qed.

Lemma has_empty_name_not_all_named (f : forest) :
  has_empty_name f = true -> all_named_subdirs f = false.
Proof.
  induction f as [| s t rest IH]; simpl; [discriminate |].
  destruct (s =? "")%string; simpl; [reflexivity |].
  intros H. rewrite (IH H). apply andb_false_r.
Qed.

(** The walk ends normally, or on the [IndexError] of an empty directory
    name. *)
Lemma collect_dirs_errors (recurse_further : bool) :
  (forall t parent_path,
     snd (_collect_dirs join isalpha suffix recurse_further parent_path t)
       = None \/
     (snd (_collect_dirs join isalpha suffix recurse_further parent_path t)
        = Some IndexError /\ all_named t = false)) /\
  (forall f parent_path keep,
     snd (walk_subdirs join isalpha suffix recurse_further parent_path keep f)
       = None \/
     (snd (walk_subdirs join isalpha suffix recurse_further parent_path
             keep f)
        = Some IndexError /\ all_named_subdirs f = false)).
Proof.
  apply tree_forest_mutind.
  - intros files subdirs IH parent_path. simpl.
    destruct (contains "./." parent_path); [apply IH |].
    destruct (any_with_suffix suffix files).
    + destruct recurse_further; [| left; reflexivity].
      specialize (IH parent_path (fun _ => true)).
      destruct (walk_subdirs join isalpha suffix true parent_path
                  (fun _ => true) subdirs) as [ys e].
      exact IH.
    + destruct (has_empty_name subdirs) eqn:He; [| apply IH].
      right. split; [reflexivity |].
      apply has_empty_name_not_all_named. exact He.
  - intros parent_path keep. left. reflexivity.
  - intros s t IHt rest IHrest parent_path keep. simpl.
    specialize (IHt (join parent_path s)).
    specialize (IHrest parent_path keep).
    destruct (keep s).
    + destruct (_collect_dirs join isalpha suffix recurse_further
                  (join parent_path s) t) as [ys [e |]].
      * simpl in *. destruct IHt as [H | [H Hn]]; [discriminate |].
        right. split; [exact H |]. rewrite Hn.
        rewrite andb_false_r. reflexivity.
      * destruct (walk_subdirs join isalpha suffix recurse_further
                    parent_path keep rest) as [ys' e'].
        simpl in *. destruct IHrest as [H | [H Hn]]; [left; exact H |].
        right. split; [exact H |]. rewrite Hn. apply andb_false_r.
    + destruct IHrest as [H | [H Hn]]; [left; exact H |].
      right. split; [exact H |]. rewrite Hn. apply andb_false_r.
Qed.

End WalkModes.

(** X6. [_collect_dirs] yields nothing at or below a directory whose path
    contains ["./."] (a dot directory at the top of the walk started at
    ["."]), with or without [recurse_further], and does not raise there;
    this holds when [os.path.join] extends the parent path, as it does
    for the names that [os.walk] joins. *)
Theorem collect_dirs_skips_dot_paths :
  forall (join : string -> string -> string) (isalpha : Ascii.ascii -> bool)
         (suffix : string) (recurse_further : bool) (parent_path : string)
         (t : tree),
    (forall p s, exists rest, join p s = p ++ rest) ->
    contains "./." parent_path = true ->
    _collect_dirs join isalpha suffix recurse_further parent_path t
      = ([], None).
Proof.
  intros join isalpha suffix recurse_further parent_path t Hjoin Hdot.
  exact (proj1 (collect_dirs_below_dot join isalpha suffix recurse_further
                  Hjoin) t parent_path Hdot).
Qed.

Lemma plain_join_extends :
  forall p s, exists rest, plain_join p s = p ++ rest.
Proof. intros p s. exists ("/" ++ s). reflexivity. Qed.

Lemma collect_dirs_skips_dot_paths_witness :
  _collect_dirs plain_join ascii_isalpha "_test.py" true "./.git"
    (Node ["hooks_test.py"]
       (dir "info" (Node ["exclude_test.py"] no_dirs) no_dirs))
    = ([], None).
Proof.
  apply (collect_dirs_skips_dot_paths plain_join ascii_isalpha "_test.py"
           true "./.git" _ plain_join_extends).
  reflexivity.
Defined.

(** X7. Every path that [_collect_dirs] yields is the path of a directory
    of the walked tree that directly holds a file whose name ends with the
    suffix, and the path does not contain ["./."]. *)
Theorem collect_dirs_yields_test_folders :
  forall (join : string -> string -> string) (isalpha : Ascii.ascii -> bool)
         (suffix : string) (recurse_further : bool) (parent_path : string)
         (t : tree) (p : string),
    In p (fst (_collect_dirs join isalpha suffix recurse_further
                 parent_path t)) ->
    exists files f pre,
      In (p, files) (os_walk join parent_path t) /\
      In f files /\ f = pre ++ suffix /\ f <> "" /\
      contains "./." p = false.
Proof.
  intros join isalpha suffix recurse_further parent_path t p Hin.
  destruct (proj1 (collect_dirs_sound join isalpha suffix recurse_further)
              t parent_path p Hin) as (files & Hwalk & Hany & Hdot).
  apply any_with_suffix_spec in Hany.
  destruct Hany as (f & pre & Hf & Hpre & Hne).
  exists files, f, pre. auto.
Qed.

Lemma collect_dirs_yields_test_folders_witness :
  exists files f pre,
    In ("./queries", files) (os_walk plain_join "." sample_tree) /\
    In f files /\ f = pre ++ "_test.py" /\ f <> "" /\
    contains "./." "./queries" = false.
Proof.
  apply (collect_dirs_yields_test_folders plain_join ascii_isalpha
           "_test.py" false "." sample_tree "./queries").
  left. reflexivity.
Defined.

(** The folders of the sample tree: the walk stops at the first test
    folder, or goes on below it; directories whose name does not start
    with a letter are not entered from a folder without tests. *)
Example collect_dirs_sample :
  _collect_dirs plain_join ascii_isalpha "_test.py" false "." sample_tree
    = (["./queries"], None) /\
  _collect_dirs plain_join ascii_isalpha "_test.py" true "." sample_tree
    = (["./queries"; "./queries/helpers"], None).
Proof. split; reflexivity. Qed.

(** X8. When the walk with [recurse_further=True] runs to its end, so
    does the walk with [recurse_further=False], and every folder that the
    latter yields is yielded by the former: going on below the test
    folders only adds folders. *)
Theorem collect_dirs_recurse_further_adds :
  forall (join : string -> string -> string) (isalpha : Ascii.ascii -> bool)
         (suffix : string) (parent_path : string) (t : tree),
    snd (_collect_dirs join isalpha suffix true parent_path t) = None ->
    snd (_collect_dirs join isalpha suffix false parent_path t) = None /\
    forall p,
      In p (fst (_collect_dirs join isalpha suffix false parent_path t)) ->
      In p (fst (_collect_dirs join isalpha suffix true parent_path t)).
Proof.
  intros join isalpha suffix parent_path t H.
  exact (proj1 (collect_dirs_recurse_further join isalpha suffix)
           t parent_path H).
Qed.

Lemma collect_dirs_recurse_further_adds_witness :
  snd (_collect_dirs plain_join ascii_isalpha "_test.py" false "."
         sample_tree) = None /\
  forall p,
    In p (fst (_collect_dirs plain_join ascii_isalpha "_test.py" false "."
                 sample_tree)) ->
    In p (fst (_collect_dirs plain_join ascii_isalpha "_test.py" true "."
                 sample_tree)).
Proof.
  apply (collect_dirs_recurse_further_adds plain_join ascii_isalpha
           "_test.py" "." sample_tree).
  reflexivity.
Defined.

(** X9. [_collect_dirs] raises nothing of its own but the [IndexError] of
    [s[0]] on an empty directory name: on a tree in which no directory
    name is empty it runs to its end, and whenever it raises, the
    exception is that [IndexError] and some directory name is empty. *)
Theorem collect_dirs_raises_only_on_empty_name :
  forall (join : string -> string -> string) (isalpha : Ascii.ascii -> bool)
         (suffix : string) (recurse_further : bool) (parent_path : string)
         (t : tree),
    (all_named t = true ->
     snd (_collect_dirs join isalpha suffix recurse_further parent_path t)
       = None) /\
    (forall e,
       snd (_collect_dirs join isalpha suffix recurse_further parent_path t)
         = Some e ->
       e = IndexError /\ all_named t = false).
Proof.
  intros join isalpha suffix recurse_further parent_path t.
  destruct (proj1 (collect_dirs_errors join isalpha suffix recurse_further)
              t parent_path) as [H | [H Hn]].
  - split; [intros _; exact H |]. intros e He. congruence.
  - split; [intros Ha; congruence |].
    intros e He. split; [congruence | exact Hn].
Qed.

(** An empty directory name under a folder without tests ends the walk
    before any folder below is yielded. *)
Example collect_dirs_empty_name :
  _collect_dirs plain_join ascii_isalpha "_test.py" false "."
    (Node ["README.md"]
       (dir "queries" (Node ["schedule_test.py"] no_dirs)
       (dir "" (Node [] no_dirs) no_dirs)))
    = ([], Some IndexError).
Proof. reflexivity. Qed.

(** X10. [_determine_local_import_names] reports a name exactly when some
    listed entry splits into that name and an extension such that either
    the extension is [".py"], or the name joined to the start directory is
    a directory and the name does not occur inside ["__pycache__"]. The
    exclusion is a substring test: it drops ["__pycache__"] and also every
    directory whose name is a part of that word. *)
Theorem local_import_names_spec :
  forall (splitext : string -> string * string) (isdir : string -> bool)
         (join : string -> string -> string) (listdir : list string)
         (start_dir b : string),
    In b (_determine_local_import_names splitext isdir join listdir
            start_dir) <->
    exists path ext,
      In path listdir /\ splitext path = (b, ext) /\
      (ext = ".py" \/
       (isdir (join start_dir b) = true /\
        ~ exists pre post, "__pycache__" = pre ++ b ++ post)).
Proof.
  intros splitext isdir join listdir start_dir b.
  unfold _determine_local_import_names.
  rewrite in_map_iff. split.
  - intros ([b' ext] & Hb & Hin). simpl in Hb. subst b'.
    apply filter_In in Hin. destruct Hin as [Hin Hcond].
    apply in_map_iff in Hin. destruct Hin as (path & Hsplit & Hpath).
    exists path, ext. split; [exact Hpath |]. split; [exact Hsplit |].
    apply orb_true_iff in Hcond. destruct Hcond as [Hpy | Hdir].
    + left. apply String.eqb_eq. exact Hpy.
    + right. apply andb_true_iff in Hdir. destruct Hdir as [Hd Hn].
      split; [exact Hd |]. intros Hsub.
      apply contains_spec in Hsub. rewrite Hsub in Hn. discriminate.
  - intros (path & ext & Hpath & Hsplit & Hcond).
    exists (b, ext). split; [reflexivity |].
    apply filter_In. split.
    + apply in_map_iff. exists path. auto.
    + apply orb_true_iff. destruct Hcond as [-> | [Hd Hn]].
      * left. reflexivity.
      * right. rewrite Hd, andb_true_l.
        destruct (contains b "__pycache__") eqn:Hc; [| reflexivity].
        exfalso. apply Hn. apply contains_spec. exact Hc.
Qed.

(** A directory called [cache] is left out like [__pycache__] itself; a
    file that is neither a module nor a directory is left out too. *)
Example local_import_names_sample :
  _determine_local_import_names plain_splitext sample_isdir plain_join
    sample_listing "."
    = ["schedule"; "queries"; ".git"].
Proof. reflexivity. Qed.
